(** * ppolicy-cracklib: a shallow embedding of [ppolicy-cracklib.c]

    The module exports [check_password], which OpenLDAP's password-policy
    overlay calls with a candidate password.  It runs [is_palindrome],
    then [is_simple], then cracklib's dictionary check.

    C values are embedded as follows.
    - A [char] is a [Z]: the value the program reads through plain
      [char], in [-128, 127] where plain [char] is signed (x86, x86-64)
      and in [0, 255] where it is unsigned (ARM, PowerPC).
    - A [const char *] is the list of chars of its buffer; the NUL
      terminator sits right after the list, and an earlier 0 inside the
      list ends the string there, as it does in C.
    - [size_t] is a [Z] reduced modulo [2^64]; [int] is a [Z] whose
      operations check the 32-bit range.
    - Behaviour that C leaves undefined is an explicit [Fault]. *)

From Stdlib Require Import ZArith List String Ascii Bool Lia.
From stdpp Require Import base list.
Import ListNotations.

Local Open Scope Z_scope.

(** ** Outcomes of a C computation *)

Inductive fault : Type :=
| OutOfBounds      (* access outside the bounds of an object *)
| NullDereference  (* read through a null pointer *)
| SignedOverflow   (* int arithmetic leaving the int range *)
| DivisionByZero   (* int division by zero *)
| OutOfFuel.       (* iteration bound of the model exhausted; never
                      produced by the functions below, see
                      [is_palindrome_fuel] *)

Inductive outcome (A : Type) : Type :=
| Ret (a : A)
| Fault (f : fault).

Arguments Ret {A} a.
Arguments Fault {A} f.

Definition bind {A B : Type} (m : outcome A) (k : A -> outcome B) : outcome B :=
  match m with
  | Ret a => k a
  | Fault f => Fault f
  end.

Notation "'do' x <- m ; k" := (bind m (fun x => k))
  (at level 10, x name, m at level 100, k at level 200).

(** ** Scalar types *)

Definition SIZE_MAX : Z := 2 ^ 64 - 1.
Definition to_size_t (z : Z) : Z := z mod 2 ^ 64.

Definition INT_MAX : Z := 2147483647.
Definition INT_MIN : Z := -2147483648.

Definition in_int (z : Z) : bool := (INT_MIN <=? z) && (z <=? INT_MAX).

Definition int_of (z : Z) : outcome Z :=
  if in_int z then Ret z else Fault SignedOverflow.

Definition int_add (a b : Z) : outcome Z := int_of (a + b).
Definition int_mul (a b : Z) : outcome Z := int_of (a * b).
(* C's [/] truncates towards zero *)
Definition int_div (a b : Z) : outcome Z :=
  if b =? 0 then Fault DivisionByZero else int_of (Z.quot a b).

(** ** <ctype.h> in the "C" locale

    libc is outside the repository; these are the classes the C standard
    fixes for the "C" locale.  Chars outside [0, 127] belong to no class
    and [tolower] leaves them distinct from each other and from ASCII. *)

Definition between (lo hi c : Z) : bool := (lo <=? c) && (c <=? hi).

Definition isdigit (c : Z) : bool := between 48 57 c.
Definition islower (c : Z) : bool := between 97 122 c.
Definition isupper (c : Z) : bool := between 65 90 c.
Definition ispunct (c : Z) : bool :=
  between 33 47 c || between 58 64 c || between 91 96 c || between 123 126 c.
Definition isspace (c : Z) : bool := (c =? 32) || between 9 13 c.
Definition tolower (c : Z) : Z := if isupper c then c + 32 else c.

(** ** C strings *)

(** The chars of a Stdlib string, as unsigned values. *)
Definition cstr (s : string) : list Z :=
  map (fun a => Z.of_N (N_of_ascii a)) (list_ascii_of_string s).

(** The chars before the first NUL. *)
Fixpoint c_str (str : list Z) : list Z :=
  match str with
  | [] => []
  | c :: rest => if c =? 0 then [] else c :: c_str rest
  end.

Definition strlen (str : list Z) : Z := Z.of_nat (length (c_str str)).

(** [str[i]]: the buffer is the list followed by its terminator. *)
Definition char_at (str : list Z) (i : Z) : outcome Z :=
  if (0 <=? i) && (i <=? Z.of_nat (length str))
  then Ret (nth (Z.to_nat i) str 0)
  else Fault OutOfBounds.

(** ** is_palindrome *)

(** The [do ... while (++i <= --j)] loop; [fuel] bounds the iterations. *)
Fixpoint palindrome_loop (fuel : nat) (str : list Z) (i j : Z) : outcome bool :=
  match fuel with
  | O => Fault OutOfFuel
  | S fuel' =>
      do a <- char_at str i;
      do b <- char_at str j;
      if negb (tolower a =? tolower b) then Ret false
      else
        let i' := to_size_t (i + 1) in
        let j' := to_size_t (j - 1) in
        if i' <=? j' then palindrome_loop fuel' str i' j' else Ret true
  end.

Definition is_palindrome (str : list Z) : outcome bool :=
  let i := 0 in
  let j := to_size_t (strlen str - 1) in
  if i =? j then Ret false
  else palindrome_loop (S (length str)) str i j.

(** Every pair the loop compares, from both ends moving inward. *)
Definition pairs_match (str : list Z) (i j : Z) : Prop :=
  forall t, 0 <= t -> i + t <= j - t ->
    tolower (nth (Z.to_nat (i + t)) str 0) = tolower (nth (Z.to_nat (j - t)) str 0).

(** ** is_simple *)

(** The locals of [is_simple] that the counting loop updates. *)
Record counters : Type := mkCounters {
  chars : list Z;            (* int chars[256] *)
  total_digits : Z;
  total_lower : Z;
  total_upper : Z;
  total_punct : Z;
  total_space : Z;
  total_other : Z;
  total : Z
}.

Definition counters_init : counters :=
  mkCounters (replicate 256%nat 0) 0 0 0 0 0 0 0.

Inductive char_class : Type := Digit | Lower | Upper | Punct | Space | Other.

Definition char_class_eqb (a b : char_class) : bool :=
  match a, b with
  | Digit, Digit | Lower, Lower | Upper, Upper
  | Punct, Punct | Space, Space | Other, Other => true
  | _, _ => false
  end.

(** The [if ... else if ... else] chain of the counting loop. *)
Definition classify (c : Z) : char_class :=
  if isdigit c then Digit
  else if islower c then Lower
  else if isupper c then Upper
  else if ispunct c then Punct
  else if isspace c then Space
  else Other.

Definition class_total (cls : char_class) (st : counters) : Z :=
  match cls with
  | Digit => total_digits st
  | Lower => total_lower st
  | Upper => total_upper st
  | Punct => total_punct st
  | Space => total_space st
  | Other => total_other st
  end.

Definition set_class_total (cls : char_class) (n : Z) (st : counters) : counters :=
  match st with
  | mkCounters a d l u p s o t =>
      match cls with
      | Digit => mkCounters a n l u p s o t
      | Lower => mkCounters a d n u p s o t
      | Upper => mkCounters a d l n p s o t
      | Punct => mkCounters a d l u n s o t
      | Space => mkCounters a d l u p n o t
      | Other => mkCounters a d l u p s n t
      end
  end.

Definition set_chars (a : list Z) (st : counters) : counters :=
  mkCounters a (total_digits st) (total_lower st) (total_upper st)
    (total_punct st) (total_space st) (total_other st) (total st).

Definition set_total (t : Z) (st : counters) : counters :=
  mkCounters (chars st) (total_digits st) (total_lower st) (total_upper st)
    (total_punct st) (total_space st) (total_other st) t.

(** [a[idx]] for a [size_t] index. *)
Definition array_get (a : list Z) (idx : Z) : outcome Z :=
  if idx <? Z.of_nat (length a)
  then match a !! Z.to_nat idx with
       | Some v => Ret v
       | None => Fault OutOfBounds
       end
  else Fault OutOfBounds.

(** [(a[idx])++] for a [size_t] index. *)
Definition array_incr (a : list Z) (idx : Z) : outcome (list Z) :=
  do v <- array_get a idx;
  do v' <- int_add v 1;
  Ret (<[Z.to_nat idx := v']> a).

(** One iteration of the counting loop on the char [c]. *)
Definition count_char (c : Z) (st : counters) : outcome counters :=
  let cls := classify c in
  do n <- int_add (class_total cls st) 1;
  let st1 := set_class_total cls n st in
  do a <- array_incr (chars st1) (to_size_t c);
  let st2 := set_chars a st1 in
  do t <- int_add (total st2) 1;
  Ret (set_total t st2).

(** [for(const char *c = str; *c != '\0'; c++, total++)] *)
Fixpoint count_loop (str : list Z) (st : counters) : outcome counters :=
  match str with
  | [] => Ret st
  | c :: rest =>
      if c =? 0 then Ret st
      else do st' <- count_char c st; count_loop rest st'
  end.

(** [(count * 100) / total] on ints. *)
Definition percent (count total : Z) : outcome Z :=
  do m <- int_mul count 100;
  int_div m total.

(** The percentages that replace the six class totals. *)
Record percentages : Type := mkPercentages {
  pct_digits : Z;
  pct_lower : Z;
  pct_upper : Z;
  pct_punct : Z;
  pct_space : Z;
  pct_other : Z
}.

Definition class_percentages (st : counters) : outcome percentages :=
  do d <- percent (total_digits st) (total st);
  do l <- percent (total_lower st) (total st);
  do u <- percent (total_upper st) (total st);
  do p <- percent (total_punct st) (total st);
  do s <- percent (total_space st) (total st);
  do o <- percent (total_other st) (total st);
  Ret (mkPercentages d l u p s o).

(** The body of [if(total_other < 20) { ... }]: the reason of the first
    [return true] reached, or [None] when control leaves the block. *)
Definition class_checks (p : percentages) : option string :=
  if 40 <? pct_digits p then Some "Password contains too many digits"%string
  else if pct_digits p <? 5 then Some "Password contains too few digits"%string
  else if 60 <? pct_lower p then Some "Password contains too many lowercase letters"%string
  else if pct_lower p <? 10 then Some "Password contains too few lowercase letters"%string
  else if 60 <? pct_upper p then Some "Password contains too many uppercase letters"%string
  else if pct_upper p <? 10 then Some "Password contains too few uppercase letters"%string
  else if 70 <? pct_punct p then Some "Password contains too much punctuation"%string
  else if pct_punct p <? 5 then Some "Password contains too little punctuation"%string
  else if 10 <? pct_space p then Some "Password contains too much whitespace"%string
  else None.

(** [for(size_t i = 0; i < 255 && iter_total < total; i++)]: [n] is
    [255 - i], the iterations left before [i < 255] fails. *)
Fixpoint dominance_loop (n : nat) (i iter_total : Z) (a : list Z) (tot : Z)
  : outcome bool :=
  match n with
  | O => Ret false
  | S n' =>
      if iter_total <? tot then
        do ci <- array_get a i;
        do pc <- percent ci tot;
        do it <- int_add iter_total ci;
        if 60 <? pc then Ret true
        else dominance_loop n' (i + 1) it a tot
      else Ret false
  end.

(** The cell [*errstr] as the strings stored in it, latest first; its
    content on entry is arbitrary.  [strdup] is taken to succeed. *)
Definition errcell : Type := list string.

Definition is_simple (str : list Z) (errstr : errcell) : outcome (bool * errcell) :=
  do st <- count_loop str counters_init;
  if total st <? 8 then Ret (true, "Password is too short"%string :: errstr)
  else
    do p <- class_percentages st;
    match (if pct_other p <? 20 then class_checks p else None) with
    | Some reason => Ret (true, reason :: errstr)
    | None =>
        do dominated <- dominance_loop 255 0 0 (chars st) (total st);
        if dominated
        then Ret (true, "Password contains too many of a single character"%string :: errstr)
        else Ret (false, errstr)
    end.

(** ** Directory entries and get_user_info *)

(** An [Attribute]: [a_desc->ad_cname.bv_val] and the values [a_vals];
    [a_numvals] is the number of values. *)
Record Attribute : Type := mkAttribute {
  ad_cname : string;
  a_vals : list string
}.

(** An [Entry] is its attribute list [e_attrs], linked through [a_next]. *)
Definition Entry : Type := list Attribute.

(** The loop of [get_user_info] over the attributes still to visit. *)
Fixpoint get_user_info_loop (attrs : list Attribute) (gecos uid : option string)
  : option string * option string :=
  match attrs with
  | [] => (gecos, uid)
  | a :: next =>
      match gecos, uid with
      | Some _, Some _ => (gecos, uid)
      | _, _ =>
          match String.eqb (ad_cname a) "gecos", String.eqb (ad_cname a) "uid", a_vals a with
          | true, _, v :: _ => get_user_info_loop next (Some v) uid
          | _, true, v :: _ => get_user_info_loop next gecos (Some v)
          | _, _, _ => get_user_info_loop next gecos uid
          end
      end
  end.

(** Returns [*uid != NULL] together with the two out-parameters. *)
Definition get_user_info (pEntry : Entry) : bool * option string * option string :=
  let '(gecos, uid) := get_user_info_loop pEntry None None in
  (bool_decide (uid <> None), gecos, uid).

(** ** check_password *)

(** The four [syslog] messages, with the arguments of their formats; a
    null [uid] is logged as such. *)
Inductive log_entry : Type :=
| LogNoUsername
| LogPalindrome (uid : option string)
| LogSimple (uid : option string) (reason : option string)
| LogCracklib (uid : option string) (error : string).

(** What a call can change: the cell [*ppErrStr] and the system log. *)
Record state : Type := mkState {
  ppErrStr : errcell;
  syslog : list log_entry
}.

Definition store (reason : string) (st : state) : state :=
  mkState (reason :: ppErrStr st) (syslog st).

Definition log (e : log_entry) (st : state) : state :=
  mkState (ppErrStr st) (e :: syslog st).

Definition LDAP_SUCCESS : Z := 0.

(** [*p] for a [char *] that is null or points to a string. *)
Definition deref (p : option string) : outcome Z :=
  match p with
  | None => Fault NullDereference
  | Some EmptyString => Ret 0
  | Some (String a _) => Ret (Z.of_N (N_of_ascii a))
  end.

Section Cracklib.

(** cracklib, an external library: the default dictionary path and the
    two checks, each returning a reason or null. *)
Variable GetDefaultCracklibDict : string.
Variable FascistCheck : list Z -> string -> option string.
Variable FascistCheckUser :
  list Z -> string -> option string -> option string -> option string.

(** Lines 208 to 233, for given values of the locals [gecos] and [uid]. *)
Definition check_password_body (pPasswd : list Z) (gecos uid : option string)
  (st : state) : outcome (Z * state) :=
  let dict := GetDefaultCracklibDict in
  do palindrome <- is_palindrome pPasswd;
  if palindrome then
    Ret (-1, store "Password is a palindrome" (log (LogPalindrome uid) st))
  else
    do r <- is_simple pPasswd (ppErrStr st);
    let st1 := mkState (snd r) (syslog st) in
    if fst r then
      Ret (-1, log (LogSimple uid (head (ppErrStr st1))) st1)
    else
      do c <- deref uid;
      let error :=
        if negb (c =? 0) then FascistCheckUser pPasswd dict uid gecos
        else FascistCheck pPasswd dict in
      match error with
      | Some e => Ret (-1, store e (log (LogCracklib uid e) st1))
      | None => Ret (LDAP_SUCCESS, st1)
      end.

(** Lines 193 to 206: the locals [gecos] and [uid] once the block on
    [pEntry] is done, and the log it leaves. *)
Definition identity_hints (pEntry : option Entry) (st : state)
  : option string * option string * state :=
  let gecos : option string := None in
  let uid : option string := None in
  match pEntry with
  | None => (gecos, uid, st)
  | Some e =>
      let '(found, gecos, uid) := get_user_info e in
      let st' := if negb found then log LogNoUsername st else st in
      (* uid = gecos = NULL; *)
      let gecos : option string := None in
      let uid : option string := gecos in
      (gecos, uid, st')
  end.

Definition check_password (pPasswd : list Z) (st : state) (pEntry : option Entry)
  : outcome (Z * state) :=
  let '(gecos, uid, st') := identity_hints pEntry st in
  check_password_body pPasswd gecos uid st'.

End Cracklib.

(** ** Quantities the statements speak of *)

(** Number of chars of the string that fall in class [cls]. *)
Definition class_count (cls : char_class) (str : list Z) : Z :=
  Z.of_nat (length (filter (fun c => char_class_eqb (classify c) cls = true) (c_str str))).

(** Number of occurrences of the char value [v] in the string. *)
Definition occurrences (v : Z) (str : list Z) : Z :=
  Z.of_nat (length (filter (fun c => c = v) (c_str str))).

(** Truncated percentage of [count] in [tot]. *)
Definition pct (count tot : Z) : Z := (count * 100) / tot.

Definition class_pct (cls : char_class) (str : list Z) : Z :=
  pct (class_count cls str) (strlen str).

(** Every char of the string is a valid index of [chars[256]]. *)
Definition index_safe (str : list Z) : bool :=
  forallb (fun c => between 0 255 c) (c_str str).

(** The run of [is_simple] stays within defined behaviour: every char
    indexes [chars] in range and [count * 100] fits an [int]. *)
Definition defined_run (str : list Z) : bool :=
  index_safe str && (strlen str * 100 <=? INT_MAX).

(** The percentages of the six classes, in the order of the source. *)
Definition percentages_of (str : list Z) : percentages :=
  mkPercentages (class_pct Digit str) (class_pct Lower str) (class_pct Upper str)
    (class_pct Punct str) (class_pct Space str) (class_pct Other str).

(** All counters lie in [[0, B]]. *)
Definition bounded (B : Z) (st : counters) : Prop :=
  0 <= total st <= B
  /\ (forall cls, 0 <= class_total cls st <= B)
  /\ Forall (fun x => 0 <= x <= B) (chars st).

Definition sumZ (l : list Z) : Z := foldr Z.add 0 l.

(** The 256 entries of [chars] after the counting loop. *)
Definition byte_table (str : list Z) : list Z :=
  map (fun v => occurrences (Z.of_nat v) str) (seq 0 256).

(** What the single-character loop returns: whether one of the entries
    it visits, those of the char values 0 to 254, exceeds 60 percent. *)
Definition dominated (str : list Z) : bool :=
  existsb (fun x => 60 <? pct x (strlen str)) (take 255 (byte_table str)).

Definition too_short : string := "Password is too short".
Definition too_many_single : string :=
  "Password contains too many of a single character".

(** The reason [is_simple] stores on a run within defined behaviour,
    [None] when it returns false. *)
Definition is_simple_reason (str : list Z) : option string :=
  if strlen str <? 8 then Some too_short
  else
    match (if class_pct Other str <? 20
           then class_checks (percentages_of str) else None) with
    | Some reason => Some reason
    | None => if dominated str then Some too_many_single else None
    end.

Definition is_simple_result (str : list Z) (errstr : errcell) : bool * errcell :=
  match is_simple_reason str with
  | Some reason => (true, reason :: errstr)
  | None => (false, errstr)
  end.

Definition class_sum (st : counters) : Z :=
  total_digits st + total_lower st + total_upper st
  + total_punct st + total_space st + total_other st.

Definition class_percentage (cls : char_class) (p : percentages) : Z :=
  match cls with
  | Digit => pct_digits p
  | Lower => pct_lower p
  | Upper => pct_upper p
  | Punct => pct_punct p
  | Space => pct_space p
  | Other => pct_other p
  end.

(** The verdict of a call that returned: the return code and, on a
    rejection, the reason left in [*ppErrStr]. *)
Definition verdict_of (r : Z * state) : Z * option string :=
  (fst r, if fst r =? LDAP_SUCCESS then None else head (ppErrStr (snd r))).

(** *** The class bounds as the specification tabulates them

    Step 5 of the specification: one row per class, in the order
    digits, lowercase, uppercase, punctuation, whitespace, each with its
    maximum, its minimum when it has one, and the two reasons. *)
Record class_bound : Type := mkBound {
  bound_class : char_class;
  bound_max : Z;
  bound_min : option Z;
  reason_max : string;
  reason_min : string
}.

Definition spec_class_bounds : list class_bound :=
  [ mkBound Digit 40 (Some 5)
      "Password contains too many digits" "Password contains too few digits";
    mkBound Lower 60 (Some 10)
      "Password contains too many lowercase letters"
      "Password contains too few lowercase letters";
    mkBound Upper 60 (Some 10)
      "Password contains too many uppercase letters"
      "Password contains too few uppercase letters";
    mkBound Punct 70 (Some 5)
      "Password contains too much punctuation"
      "Password contains too little punctuation";
    mkBound Space 10 None
      "Password contains too much whitespace" EmptyString ].

(** The gates of one row: "too many" first, then "too few". *)
Definition spec_row_gates (pcts : char_class -> Z) (b : class_bound)
  : list (bool * string) :=
  (bound_max b <? pcts (bound_class b), reason_max b)
  :: match bound_min b with
     | Some m => [(pcts (bound_class b) <? m, reason_min b)]
     | None => []
     end.

(** The reason of the first violated bound, if any bound is violated. *)
Definition spec_first_violation (pcts : char_class -> Z) : option string :=
  option_map snd (find fst (flat_map (spec_row_gates pcts) spec_class_bounds)).

(** *** Sample surroundings for concrete runs *)

Definition empty_dictionary (pw : list Z) (dict : string) : option string := None.
Definition empty_dictionary_user (pw : list Z) (dict : string)
  (uid gecos : option string) : option string := None.
Definition fresh_state : state := mkState [] [].

(** The word Passwort, spelled with a sharp s in UTF-8 and followed by
    1 and !, read through a signed plain char: the two bytes C3 9F of
    the sharp s read as -61 and -97. *)
Definition eszett_password : list Z :=
  [80; 97; -61; -97; 119; 111; 114; 116; 49; 33].


(** Nine chars, one of each class but lowercase: the single space is
    1 of 9. *)
Definition one_space_of_nine : list Z := cstr "1 Abcdef!".

(** 21 chars with 2 lowercase letters: 9.52 percent. *)
Definition two_lowercase_of_21 : list Z := cstr "1234abABCDEFGHIJ!@#$%".

(** 23 chars, 14 of them the letter a: 60.87 percent. *)
Definition fourteen_of_23 : list Z := cstr "aaaaaaaaaaaaaa12ABC!@#$".

(** An entry with a login name and a display name. *)
Definition sample_entry : Entry :=
  [ mkAttribute "cn" ["Alice Example"%string];
    mkAttribute "uid" ["alice"%string];
    mkAttribute "gecos" ["Alice"%string] ].

(** *** Quantities for the properties of the whole module *)

(** An attribute that carries the name [name] and at least one value. *)
Definition names_value (name : string) (a : Attribute) : Prop :=
  ad_cname a = name /\ a_vals a <> [].

(** The first value of the first attribute named [name] that has one. *)
Fixpoint first_value (name : string) (attrs : list Attribute) : option string :=
  match attrs with
  | [] => None
  | a :: next =>
      if String.eqb (ad_cname a) name
      then match a_vals a with
           | v :: _ => Some v
           | [] => first_value name next
           end
      else first_value name next
  end.

(** Every reason [is_simple] has a [strdup] for. *)
Definition is_simple_reasons : list string :=
  [ too_short;
    "Password contains too many digits"%string;
    "Password contains too few digits"%string;
    "Password contains too many lowercase letters"%string;
    "Password contains too few lowercase letters"%string;
    "Password contains too many uppercase letters"%string;
    "Password contains too few uppercase letters"%string;
    "Password contains too much punctuation"%string;
    "Password contains too little punctuation"%string;
    "Password contains too much whitespace"%string;
    too_many_single ].

(** The five class bands, on the percentages of a string. *)
Definition within_class_bounds (str : list Z) : Prop :=
  5 <= class_pct Digit str <= 40
  /\ 10 <= class_pct Lower str <= 60
  /\ 10 <= class_pct Upper str <= 60
  /\ 5 <= class_pct Punct str <= 70
  /\ class_pct Space str <= 10.

(** Two buffers that agree char by char up to letter case. *)
Definition same_up_to_case (s1 s2 : list Z) : Prop :=
  Forall2 (fun a b => tolower a = tolower b) s1 s2.

(** The verdict of a call, a fault being kept as it is. *)
Definition verdict_of_outcome (o : outcome (Z * state)) : outcome (Z * option string) :=
  match o with
  | Ret r => Ret (verdict_of r)
  | Fault f => Fault f
  end.

(** * Properties *)

(** ** Int arithmetic within range *)

(** Side conditions that a value lies in the int range. *)
Ltac int_range := unfold INT_MIN, INT_MAX in *; lia.

Lemma int_of_ok (z : Z) : INT_MIN <= z <= INT_MAX -> int_of z = Ret z.
Proof.
  intros Hz. unfold int_of, in_int.
  destruct (Z.leb_spec INT_MIN z), (Z.leb_spec z INT_MAX); simpl; try reflexivity; lia.
Qed.

Lemma int_add_ok (a b : Z) : INT_MIN <= a + b <= INT_MAX -> int_add a b = Ret (a + b).
Proof. apply int_of_ok. Qed.

Lemma int_mul_ok (a b : Z) : INT_MIN <= a * b <= INT_MAX -> int_mul a b = Ret (a * b).
Proof. apply int_of_ok. Qed.

Lemma percent_ok (count tot : Z) :
  0 <= count <= tot -> 0 < tot -> tot * 100 <= INT_MAX ->
  percent count tot = Ret (pct count tot).
Proof.
  intros Hc Ht Hmax. unfold percent, pct, INT_MAX, INT_MIN in *.
  rewrite int_mul_ok by int_range. simpl.
  unfold int_div. destruct (Z.eqb_spec tot 0); [lia|].
  rewrite Z.quot_div_nonneg by lia.
  apply int_of_ok. unfold INT_MAX, INT_MIN.
  assert (0 <= count * 100 / tot) by (apply Z.div_pos; lia).
  assert (count * 100 / tot <= count * 100) by (apply Z.div_le_upper_bound; nia).
  lia.
Qed.

(** ** C strings *)

Lemma c_str_length (str : list Z) : (length (c_str str) <= length str)%nat.
Proof.
  induction str as [|c rest IH]; simpl; [lia|].
  destruct (c =? 0); simpl; lia.
Qed.

Lemma strlen_nonneg (str : list Z) : 0 <= strlen str.
Proof. unfold strlen. lia. Qed.

Lemma strlen_le_length (str : list Z) : strlen str <= Z.of_nat (length str).
Proof. unfold strlen. pose proof (c_str_length str). lia. Qed.

(** ** is_palindrome *)

Lemma char_at_ok (str : list Z) (i : Z) :
  0 <= i <= Z.of_nat (length str) ->
  char_at str i = Ret (nth (Z.to_nat i) str 0).
Proof.
  intros Hi. unfold char_at.
  destruct (Z.leb_spec 0 i), (Z.leb_spec i (Z.of_nat (length str))); simpl;
    try reflexivity; lia.
Qed.

Lemma to_size_t_small (z : Z) : 0 <= z <= SIZE_MAX -> to_size_t z = z.
Proof. unfold to_size_t, SIZE_MAX. intros Hz. apply Z.mod_small. lia. Qed.

Lemma to_size_t_range (z : Z) : 0 <= to_size_t z <= SIZE_MAX.
Proof.
  unfold to_size_t, SIZE_MAX.
  pose proof (Z.mod_pos_bound z (2 ^ 64) ltac:(lia)). lia.
Qed.

Lemma pairs_match_step (str : list Z) (i j : Z) :
  pairs_match str i j <->
  (i <= j -> tolower (nth (Z.to_nat i) str 0) = tolower (nth (Z.to_nat j) str 0))
  /\ pairs_match str (i + 1) (j - 1).
Proof.
  unfold pairs_match. split.
  - intros H. split.
    + intros Hij. specialize (H 0 ltac:(lia) ltac:(lia)).
      now rewrite Z.add_0_r, Z.sub_0_r in H.
    + intros t Ht Hle. specialize (H (t + 1) ltac:(lia) ltac:(lia)).
      now replace (i + 1 + t) with (i + (t + 1)) by lia;
        replace (j - 1 - t) with (j - (t + 1)) by lia.
  - intros [H0 Hrest] t Ht Hle.
    destruct (Z.eq_dec t 0) as [->|Hne].
    + rewrite Z.add_0_r, Z.sub_0_r. apply H0. lia.
    + specialize (Hrest (t - 1) ltac:(lia) ltac:(lia)).
      now replace (i + 1 + (t - 1)) with (i + t) in Hrest by lia;
        replace (j - 1 - (t - 1)) with (j - t) in Hrest by lia.
Qed.

Lemma pairs_match_crossed (str : list Z) (i j : Z) : j < i -> pairs_match str i j.
Proof. intros Hji t Ht Hle. lia. Qed.

(** The loop, started inside the string, decides [pairs_match]. *)
Lemma palindrome_loop_spec (str : list Z) (fuel : nat) :
  forall i j,
    0 <= i <= j -> 1 <= j -> j <= Z.of_nat (length str) -> i + j <= SIZE_MAX ->
    j - i < 2 * Z.of_nat fuel ->
    exists b, palindrome_loop fuel str i j = Ret b /\ (b = true <-> pairs_match str i j).
Proof.
  induction fuel as [|fuel IH]; intros i j Hij Hj Hlen Hsum Hfuel; [lia|].
  simpl. rewrite !char_at_ok by lia. simpl.
  rewrite !to_size_t_small by lia.
  setoid_rewrite (pairs_match_step str i j).
  destruct (Z.eqb_spec (tolower (nth (Z.to_nat i) str 0)) (tolower (nth (Z.to_nat j) str 0)))
    as [Heq|Hne]; simpl.
  - destruct (Z.leb_spec (i + 1) (j - 1)) as [Hle|Hgt].
    + destruct (IH (i + 1) (j - 1)) as (b & Hb & Hiff); try lia.
      exists b. split; [exact Hb|]. rewrite Hiff. tauto.
    + exists true. split; [reflexivity|].
      split; [|reflexivity]. intros _. split; [auto|].
      apply pairs_match_crossed. lia.
  - exists false. split; [reflexivity|].
    split; [discriminate|]. intros [H _]. exfalso. apply Hne, H. lia.
Qed.

(** The iteration bound [S (length str)] is never exhausted. *)
Lemma palindrome_loop_fuel (str : list Z) (fuel : nat) :
  forall i j,
    0 <= i <= j -> 1 <= j -> i + j <= SIZE_MAX ->
    (j <= Z.of_nat (length str) -> j - i < 2 * Z.of_nat fuel) ->
    (0 < fuel)%nat ->
    palindrome_loop fuel str i j <> Fault OutOfFuel.
Proof.
  induction fuel as [|fuel IH]; intros i j Hij Hj Hsum Hfuel Hpos; [lia|].
  simpl. unfold char_at at 1.
  destruct ((0 <=? i) && (i <=? Z.of_nat (length str))); simpl; [|discriminate].
  unfold char_at at 1.
  destruct (Z.leb_spec 0 j), (Z.leb_spec j (Z.of_nat (length str))); simpl;
    try discriminate.
  rewrite !to_size_t_small by lia.
  destruct (negb _); [discriminate|].
  destruct (Z.leb_spec (i + 1) (j - 1)); [|discriminate].
  apply IH; lia.
Qed.

Lemma is_palindrome_fuel (str : list Z) : is_palindrome str <> Fault OutOfFuel.
Proof.
  unfold is_palindrome.
  pose proof (to_size_t_range (strlen str - 1)) as Hr.
  destruct (Z.eqb_spec 0 (to_size_t (strlen str - 1))); [discriminate|].
  apply palindrome_loop_fuel; try lia.
Qed.

(** On a non-empty string [is_palindrome] returns, and returns true
    exactly when the string has two chars or more and every compared
    pair matches. *)
Lemma is_palindrome_nonempty (str : list Z) :
  1 <= strlen str <= SIZE_MAX ->
  exists b, is_palindrome str = Ret b
    /\ (b = true <-> 2 <= strlen str /\ pairs_match str 0 (strlen str - 1)).
Proof.
  intros Hn. unfold is_palindrome. cbv zeta.
  pose proof (strlen_le_length str) as Hlen.
  rewrite to_size_t_small by lia.
  destruct (Z.eqb_spec 0 (strlen str - 1)) as [H1|H1].
  - exists false. split; [reflexivity|]. split; [discriminate|]. lia.
  - destruct (palindrome_loop_spec str (S (length str)) 0 (strlen str - 1))
      as (b & Hb & Hiff); try lia.
    exists b. split; [exact Hb|]. rewrite Hiff. split; [|tauto].
    intros H. split; [lia|exact H].
Qed.

(** [pairs_match] from end to end is the usual notion: the case-folded
    string reads the same in both directions. *)
Lemma c_str_nth (str : list Z) :
  forall k, (k < length (c_str str))%nat -> nth k (c_str str) 0 = nth k str 0.
Proof.
  induction str as [|c rest IH]; intros k Hk; simpl in *; [lia|].
  destruct (c =? 0); simpl in *; [lia|].
  destruct k as [|k]; [reflexivity|]. apply IH. lia.
Qed.

Lemma folded_nth (str : list Z) (k : nat) :
  (k < length (c_str str))%nat ->
  nth k (map tolower (c_str str)) 0 = tolower (nth k str 0).
Proof.
  intros Hk. change 0 with (tolower 0) at 1.
  rewrite map_nth. now rewrite c_str_nth.
Qed.

Lemma pairs_match_reverse (str : list Z) :
  pairs_match str 0 (strlen str - 1)
  <-> map tolower (c_str str) = rev (map tolower (c_str str)).
Proof.
  unfold strlen. set (n := length (c_str str)).
  assert (Hmirror : forall k, (k < n)%nat ->
            nth k (rev (map tolower (c_str str))) 0 = tolower (nth (n - S k) str 0)).
  { intros k Hk. rewrite rev_nth by (rewrite length_map; exact Hk).
    rewrite length_map. apply folded_nth. fold n. lia. }
  split.
  - intros Hpm. apply (nth_ext _ _ 0 0); [now rewrite length_rev|].
    rewrite length_map. fold n. intros k Hk.
    rewrite folded_nth, Hmirror by exact Hk.
    destruct (Z_le_gt_dec (Z.of_nat k) (Z.of_nat n - 1 - Z.of_nat k)) as [Hle|Hgt].
    + specialize (Hpm (Z.of_nat k) ltac:(lia) ltac:(lia)).
      replace (Z.to_nat (0 + Z.of_nat k)) with k in Hpm by lia.
      replace (Z.to_nat (Z.of_nat n - 1 - Z.of_nat k)) with (n - S k)%nat in Hpm by lia.
      exact Hpm.
    + specialize (Hpm (Z.of_nat (n - S k)) ltac:(lia) ltac:(lia)).
      replace (Z.to_nat (0 + Z.of_nat (n - S k))) with (n - S k)%nat in Hpm by lia.
      replace (Z.to_nat (Z.of_nat n - 1 - Z.of_nat (n - S k))) with k in Hpm by lia.
      now symmetry.
  - intros Heq t Ht Hle.
    assert (Hk : (Z.to_nat t < n)%nat) by lia.
    pose proof (Hmirror _ Hk) as Hm. rewrite <- Heq, folded_nth in Hm by exact Hk.
    replace (Z.to_nat (0 + t)) with (Z.to_nat t) by lia.
    replace (Z.to_nat (Z.of_nat n - 1 - t)) with (n - S (Z.to_nat t))%nat by lia.
    exact Hm.
Qed.

Lemma is_palindrome_reverse (str : list Z) :
  1 <= strlen str <= SIZE_MAX ->
  exists b, is_palindrome str = Ret b
    /\ (b = true <-> 2 <= strlen str
                     /\ map tolower (c_str str) = rev (map tolower (c_str str))).
Proof.
  intros Hn. destruct (is_palindrome_nonempty str Hn) as (b & Hb & Hiff).
  exists b. split; [exact Hb|]. now rewrite Hiff, pairs_match_reverse.
Qed.

(** ** The counting loop of is_simple *)

Lemma sumZ_insert (l : list Z) (i : nat) (x y : Z) :
  l !! i = Some x -> sumZ (<[i:=y]> l) = sumZ l - x + y.
Proof.
  revert i. induction l as [|a l IH]; intros [|i] H; simpl in *; try discriminate.
  - injection H as ->. lia.
  - rewrite (IH _ H). lia.
Qed.

Lemma class_total_set (cls cls' : char_class) (n : Z) (st : counters) :
  class_total cls' (set_class_total cls n st)
  = if char_class_eqb cls cls' then n else class_total cls' st.
Proof. destruct st, cls, cls'; reflexivity. Qed.

Lemma class_sum_set (cls : char_class) (st : counters) :
  class_sum (set_class_total cls (class_total cls st + 1) st) = class_sum st + 1.
Proof. destruct st, cls; unfold class_sum; simpl; lia. Qed.

Lemma chars_set_class (cls : char_class) (n : Z) (st : counters) :
  chars (set_class_total cls n st) = chars st.
Proof. destruct st, cls; reflexivity. Qed.

Lemma total_set_class (cls : char_class) (n : Z) (st : counters) :
  total (set_class_total cls n st) = total st.
Proof. destruct st, cls; reflexivity. Qed.

Lemma array_get_ok (a : list Z) (idx x : Z) :
  0 <= idx -> a !! Z.to_nat idx = Some x -> array_get a idx = Ret x.
Proof.
  intros Hidx Hx. unfold array_get.
  apply lookup_lt_Some in Hx as Hlt.
  destruct (Z.ltb_spec idx (Z.of_nat (length a))); [|lia].
  now rewrite Hx.
Qed.

Lemma array_get_out (a : list Z) (idx : Z) :
  Z.of_nat (length a) <= idx -> array_get a idx = Fault OutOfBounds.
Proof.
  intros H. unfold array_get.
  destruct (Z.ltb_spec idx (Z.of_nat (length a))); [lia|reflexivity].
Qed.

(** A char below zero, as read through a signed plain char, is
    converted to a [size_t] far beyond the 256 entries of [chars]. *)
Lemma negative_char_index (c : Z) :
  -128 <= c < 0 -> 256 <= to_size_t c.
Proof.
  intros Hc. unfold to_size_t.
  replace c with (c + 2 ^ 64 + (-1) * 2 ^ 64) by lia.
  rewrite Z.mod_add by lia. rewrite Z.mod_small; lia.
Qed.

(** One iteration on a char that indexes [chars] in range. *)
Lemma count_char_spec (c : Z) (st : counters) (B : Z) :
  0 <= c <= 255 -> length (chars st) = 256%nat -> bounded B st -> B < INT_MAX ->
  exists st',
    count_char c st = Ret st'
    /\ total st' = total st + 1
    /\ (forall cls, class_total cls st'
                    = class_total cls st + (if char_class_eqb (classify c) cls then 1 else 0))
    /\ length (chars st') = 256%nat
    /\ (forall (v : nat) x, chars st !! v = Some x ->
          chars st' !! v = Some (x + (if decide (c = Z.of_nat v) then 1 else 0)))
    /\ sumZ (chars st') = sumZ (chars st) + 1
    /\ class_sum st' = class_sum st + 1
    /\ bounded (B + 1) st'.
Proof.
  intros Hc Hlen (Htot & Hcls & Hch) HB.
  assert (Hidx : to_size_t c = c) by (apply to_size_t_small; unfold SIZE_MAX; lia).
  destruct (lookup_lt_is_Some_2 (chars st) (Z.to_nat c)) as [x Hx]; [lia|].
  assert (Hxb : 0 <= x <= B).
  { rewrite Forall_lookup in Hch. exact (Hch _ _ Hx). }
  unfold count_char. cbv zeta.
  pose proof (Hcls (classify c)) as Hcc.
  rewrite int_add_ok by int_range. simpl.
  unfold array_incr. rewrite chars_set_class, Hidx.
  rewrite (array_get_ok _ _ x) by (auto; lia). simpl.
  rewrite int_add_ok by int_range. simpl.
  rewrite total_set_class.
  rewrite int_add_ok by int_range. simpl.
  eexists. split; [reflexivity|]. simpl.
  assert (Hclass : forall cls,
    class_total cls (set_total (total st + 1)
      (set_chars (<[Z.to_nat c:=x + 1]> (chars st))
        (set_class_total (classify c) (class_total (classify c) st + 1) st)))
    = class_total cls st + (if char_class_eqb (classify c) cls then 1 else 0)).
  { intros cls. transitivity (class_total cls
      (set_class_total (classify c) (class_total (classify c) st + 1) st)).
    - destruct cls; reflexivity.
    - rewrite class_total_set.
      destruct (classify c), cls; simpl; lia. }
  split_and!.
  - reflexivity.
  - exact Hclass.
  - now rewrite length_insert.
  - intros v y Hy. destruct (decide (c = Z.of_nat v)) as [->|Hne].
    + rewrite Nat2Z.id in *. rewrite Hx in Hy. injection Hy as <-.
      apply list_lookup_insert_eq. lia.
    + rewrite list_lookup_insert_ne by lia. rewrite Hy. f_equal. lia.
  - rewrite (sumZ_insert _ _ x) by exact Hx. lia.
  - rewrite <- (class_sum_set (classify c) st). destruct st, (classify c); reflexivity.
  - unfold bounded. split_and!.
    + simpl. lia.
    + simpl. lia.
    + intros cls. rewrite Hclass. specialize (Hcls cls).
      destruct (char_class_eqb _ _); lia.
    + simpl. apply Forall_insert; [|lia].
      eapply Forall_impl; [exact Hch|]. simpl. intros; lia.
Qed.

(** A char below zero makes the iteration that counts it write outside
    [chars]. *)
Lemma negative_char_faults (c : Z) (st : counters) (B : Z) :
  -128 <= c < 0 -> length (chars st) = 256%nat -> bounded B st -> B < INT_MAX ->
  count_char c st = Fault OutOfBounds.
Proof.
  intros Hc Hlen (_ & Hcls & _) HB. unfold count_char. cbv zeta.
  pose proof (Hcls (classify c)).
  rewrite int_add_ok by int_range. cbn [bind].
  unfold array_incr. rewrite chars_set_class.
  rewrite array_get_out; [reflexivity|].
  pose proof (negative_char_index c Hc). lia.
Qed.

Lemma c_str_cons (c : Z) (rest : list Z) :
  c <> 0 -> c_str (c :: rest) = c :: c_str rest.
Proof. intros Hc. simpl. destruct (Z.eqb_spec c 0); [contradiction|reflexivity]. Qed.

Lemma c_str_nul (rest : list Z) : c_str (0 :: rest) = [].
Proof. reflexivity. Qed.

Lemma strlen_cons (c : Z) (rest : list Z) :
  c <> 0 -> strlen (c :: rest) = strlen rest + 1.
Proof. intros Hc. unfold strlen. rewrite c_str_cons by exact Hc. simpl length. lia. Qed.

Lemma class_count_cons (cls : char_class) (c : Z) (rest : list Z) :
  c <> 0 ->
  class_count cls (c :: rest)
  = class_count cls rest + (if char_class_eqb (classify c) cls then 1 else 0).
Proof.
  intros Hc. unfold class_count. rewrite c_str_cons by exact Hc.
  rewrite filter_cons. destruct (char_class_eqb (classify c) cls) eqn:E.
  - rewrite decide_True by reflexivity. simpl length. lia.
  - rewrite decide_False by discriminate. lia.
Qed.

Lemma occurrences_cons (v c : Z) (rest : list Z) :
  c <> 0 ->
  occurrences v (c :: rest) = occurrences v rest + (if decide (c = v) then 1 else 0).
Proof.
  intros Hc. unfold occurrences. rewrite c_str_cons by exact Hc.
  rewrite filter_cons. destruct (decide (c = v)); simpl length; lia.
Qed.

Lemma index_safe_cons (c : Z) (rest : list Z) :
  c <> 0 -> index_safe (c :: rest) = between 0 255 c && index_safe rest.
Proof. intros Hc. unfold index_safe. now rewrite c_str_cons by exact Hc. Qed.

Lemma between_spec (lo hi c : Z) : between lo hi c = true <-> lo <= c <= hi.
Proof. unfold between. rewrite andb_true_iff, !Z.leb_le. tauto. Qed.

Lemma class_count_le (cls : char_class) (str : list Z) :
  0 <= class_count cls str <= strlen str.
Proof.
  unfold class_count, strlen. pose proof (length_filter
    (fun c => char_class_eqb (classify c) cls = true) (c_str str)). lia.
Qed.

Lemma occurrences_le (v : Z) (str : list Z) : 0 <= occurrences v str <= strlen str.
Proof.
  unfold occurrences, strlen.
  pose proof (length_filter (fun c => c = v) (c_str str)). lia.
Qed.

(** The counting loop on a string whose chars all index [chars] in
    range: it returns, and each counter has grown by what it counts. *)
Lemma count_loop_spec (str : list Z) :
  forall (st : counters) (B : Z),
    index_safe str = true -> length (chars st) = 256%nat ->
    bounded B st -> B + strlen str <= INT_MAX ->
    exists st',
      count_loop str st = Ret st'
      /\ total st' = total st + strlen str
      /\ (forall cls, class_total cls st' = class_total cls st + class_count cls str)
      /\ length (chars st') = 256%nat
      /\ (forall (v : nat) x, chars st !! v = Some x ->
            chars st' !! v = Some (x + occurrences (Z.of_nat v) str))
      /\ sumZ (chars st') = sumZ (chars st) + strlen str
      /\ class_sum st' = class_sum st + strlen str.
Proof.
  induction str as [|c rest IH]; intros st B Hsafe Hlen Hb HB.
  - exists st. simpl. unfold strlen, class_count, occurrences. simpl.
    split_and!; try reflexivity; try lia.
    intros v x Hx. rewrite Hx. f_equal. lia.
  - simpl count_loop. destruct (Z.eqb_spec c 0) as [->|Hc].
    + exists st. unfold strlen, class_count, occurrences. rewrite c_str_nul. simpl.
      split_and!; try reflexivity; try lia.
      intros v x Hx. rewrite Hx. f_equal. lia.
    + rewrite index_safe_cons in Hsafe by exact Hc.
      apply andb_true_iff in Hsafe as [Hc255 Hsafe]. apply between_spec in Hc255.
      rewrite strlen_cons in * by exact Hc.
      pose proof (strlen_nonneg rest) as Hn.
      destruct (count_char_spec c st B) as
        (st1 & Hst1 & Ht1 & Hc1 & Hl1 & Hch1 & Hs1 & Hcs1 & Hb1); try lia; auto.
      destruct (IH st1 (B + 1)) as
        (st2 & Hst2 & Ht2 & Hc2 & Hl2 & Hch2 & Hs2 & Hcs2); try lia; auto.
      exists st2. rewrite Hst1. simpl. split_and!; try lia; auto.
      * intros cls. rewrite Hc2, Hc1, class_count_cons by exact Hc. lia.
      * intros v x Hx. rewrite (Hch2 v _ (Hch1 v x Hx)).
        rewrite occurrences_cons by exact Hc. f_equal. lia.
Qed.

Lemma counters_init_bounded : bounded 0 counters_init.
Proof.
  unfold bounded, counters_init. split_and!.
  - simpl. lia.
  - simpl. lia.
  - intros cls. destruct cls; simpl; lia.
  - cbn [chars]. apply Forall_replicate. lia.
Qed.

(** The counters [is_simple] works with after its first loop. *)
Lemma count_loop_init (str : list Z) :
  index_safe str = true -> strlen str <= INT_MAX ->
  exists st,
    count_loop str counters_init = Ret st
    /\ total st = strlen str
    /\ (forall cls, class_total cls st = class_count cls str)
    /\ length (chars st) = 256%nat
    /\ (forall v : nat, (v < 256)%nat ->
          chars st !! v = Some (occurrences (Z.of_nat v) str))
    /\ sumZ (chars st) = strlen str
    /\ class_sum st = strlen str.
Proof.
  intros Hsafe Hmax.
  destruct (count_loop_spec str counters_init 0 Hsafe eq_refl counters_init_bounded)
    as (st & Hst & Ht & Hc & Hl & Hch & Hs & Hcs); [lia|].
  exists st. split_and!; auto.
  - intros cls. rewrite Hc. destruct cls; simpl; lia.
  - intros v Hv. rewrite (Hch v 0); [f_equal; lia|].
    unfold counters_init. cbn [chars]. apply lookup_replicate_2. lia.
Qed.

(** A string with a char that [chars] cannot index, each char being
    one a plain [char] can hold: the loop leaves defined behaviour at
    the first such char. *)
Lemma count_loop_out_of_range (str : list Z) :
  forall (st : counters) (B : Z),
    index_safe str = false -> Forall (fun c => -128 <= c <= 255) (c_str str) ->
    length (chars st) = 256%nat -> bounded B st -> B + strlen str <= INT_MAX ->
    count_loop str st = Fault OutOfBounds.
Proof.
  induction str as [|c rest IH]; intros st B Hsafe Hrange Hlen Hb HB;
    [discriminate Hsafe|].
  simpl count_loop. destruct (Z.eqb_spec c 0) as [->|Hc]; [discriminate Hsafe|].
  rewrite index_safe_cons in Hsafe by exact Hc.
  rewrite c_str_cons in Hrange by exact Hc. inversion Hrange as [|? ? Hc1 Hrest]; subst.
  rewrite strlen_cons in HB by exact Hc.
  pose proof (strlen_nonneg rest) as Hn.
  destruct (between 0 255 c) eqn:Hbt.
  - apply between_spec in Hbt. simpl in Hsafe.
    destruct (count_char_spec c st B) as (st1 & -> & _ & _ & Hl1 & _ & _ & _ & Hb1);
      try lia; auto.
    cbn [bind]. apply (IH st1 (B + 1)); auto. lia.
  - assert (Hneg : -128 <= c < 0).
    { destruct (Z_lt_ge_dec c 0); [lia|]. exfalso.
      assert (between 0 255 c = true) by (apply between_spec; lia). congruence. }
    rewrite (negative_char_faults c st B) by (auto; lia). reflexivity.
Qed.

Lemma is_simple_out_of_range (str : list Z) (errstr : errcell) :
  index_safe str = false -> Forall (fun c => -128 <= c <= 255) (c_str str) ->
  strlen str <= INT_MAX ->
  is_simple str errstr = Fault OutOfBounds.
Proof.
  intros Hsafe Hrange Hmax. unfold is_simple.
  rewrite (count_loop_out_of_range str counters_init 0);
    auto using counters_init_bounded; lia.
Qed.

(** ** Percentages *)

Lemma class_percentages_ok (st : counters) (str : list Z) :
  total st = strlen str ->
  (forall cls, class_total cls st = class_count cls str) ->
  0 < strlen str -> strlen str * 100 <= INT_MAX ->
  class_percentages st = Ret (percentages_of str).
Proof.
  intros Ht Hc Hpos Hmax. unfold class_percentages, percentages_of, class_pct.
  rewrite Ht.
  rewrite <- (Hc Digit), <- (Hc Lower), <- (Hc Upper),
    <- (Hc Punct), <- (Hc Space), <- (Hc Other).
  pose proof (fun cls => class_count_le cls str) as Hle.
  setoid_rewrite <- Hc in Hle.
  pose proof (Hle Digit). pose proof (Hle Lower). pose proof (Hle Upper).
  pose proof (Hle Punct). pose proof (Hle Space). pose proof (Hle Other).
  simpl in *.
  repeat (rewrite percent_ok by lia; simpl).
  reflexivity.
Qed.

(** ** The single-character loop *)

Lemma sumZ_app (l1 l2 : list Z) : sumZ (l1 ++ l2) = sumZ l1 + sumZ l2.
Proof. induction l1 as [|a l1 IH]; simpl; lia. Qed.

Lemma sumZ_nonneg (l : list Z) : Forall (fun x => 0 <= x) l -> 0 <= sumZ l.
Proof. induction 1; simpl; lia. Qed.

Lemma sumZ_zero (l : list Z) :
  Forall (fun x => 0 <= x) l -> sumZ l <= 0 -> Forall (fun x => x = 0) l.
Proof.
  induction 1 as [|a l Ha Hl IH]; simpl; intros Hs; constructor.
  - pose proof (sumZ_nonneg l Hl). lia.
  - apply IH. lia.
Qed.

Lemma existsb_zero (tot : Z) (l : list Z) :
  0 < tot -> Forall (fun x => x = 0) l ->
  existsb (fun x => 60 <? pct x tot) l = false.
Proof.
  intros Ht. induction 1 as [|a l Ha Hl IH]; [reflexivity|].
  subst a. cbn [existsb]. rewrite IH.
  unfold pct. rewrite Z.mul_0_l, Z.div_0_l by lia. reflexivity.
Qed.

(** With [iter_total] the sum of the entries below [i], the loop
    returns whether one of the [n] entries from [i] on exceeds 60
    percent: stopping once [iter_total] reaches [tot] loses nothing,
    the entries not yet visited being zero. *)
Lemma dominance_loop_spec (a : list Z) (tot : Z) :
  Forall (fun x => 0 <= x <= tot) a -> sumZ a = tot ->
  0 < tot -> tot * 100 <= INT_MAX ->
  forall (n : nat) (i : nat),
    (i + n <= length a)%nat ->
    dominance_loop n (Z.of_nat i) (sumZ (take i a)) a tot
    = Ret (existsb (fun x => 60 <? pct x tot) (take n (drop i a))).
Proof.
  intros Hall Hsum Hpos Hmax.
  assert (Hnn : Forall (fun x => 0 <= x) a).
  { eapply Forall_impl; [exact Hall|]. simpl. intros; lia. }
  induction n as [|n IH]; intros i Hin; [reflexivity|].
  simpl dominance_loop.
  assert (Hit : 0 <= sumZ (take i a)) by (apply sumZ_nonneg, Forall_take, Hnn).
  assert (Hrest : 0 <= sumZ (drop i a)) by (apply sumZ_nonneg, Forall_drop, Hnn).
  pose proof (sumZ_app (take i a) (drop i a)) as Happ.
  rewrite take_drop, Hsum in Happ.
  destruct (lookup_lt_is_Some_2 a i) as [x Hx]; [lia|].
  assert (Hxb : 0 <= x <= tot).
  { rewrite Forall_lookup in Hall. exact (Hall _ _ Hx). }
  rewrite (drop_S _ _ _ Hx). simpl take. simpl existsb.
  destruct (Z.ltb_spec (sumZ (take i a)) tot) as [Hlt|Hge].
  - rewrite (array_get_ok _ _ x) by (rewrite ?Nat2Z.id; auto; lia). simpl.
    rewrite percent_ok by lia. simpl.
    rewrite int_add_ok by int_range. simpl.
    destruct (60 <? pct x tot); [reflexivity|]. simpl.
    replace (Z.of_nat i + 1) with (Z.of_nat (S i)) by lia.
    replace (sumZ (take i a) + x) with (sumZ (take (S i) a)).
    + apply IH. lia.
    + rewrite (take_S_r _ _ _ Hx), sumZ_app. simpl. lia.
  - assert (Hz : Forall (fun y => y = 0) (drop i a)).
    { apply sumZ_zero; [apply Forall_drop; exact Hnn | lia]. }
    rewrite (drop_S _ _ _ Hx) in Hz.
    symmetry. f_equal.
    change (existsb (fun y => 60 <? pct y tot) (x :: take n (drop (S i) a)) = false).
    apply existsb_zero; [exact Hpos|].
    inversion Hz; subst. constructor; [reflexivity|].
    apply Forall_take. assumption.
Qed.

(** ** is_simple on runs within defined behaviour *)

Lemma chars_byte_table (a : list Z) (str : list Z) :
  length a = 256%nat ->
  (forall v : nat, (v < 256)%nat -> a !! v = Some (occurrences (Z.of_nat v) str)) ->
  a = byte_table str.
Proof.
  intros Hlen Hlk. apply list_eq. intros v. unfold byte_table.
  change (map ?f ?l) with (f <$> l).
  destruct (Nat.lt_ge_cases v 256) as [Hv|Hv].
  - rewrite (Hlk v Hv). symmetry. rewrite list_lookup_fmap.
    rewrite lookup_seq_lt by exact Hv. reflexivity.
  - rewrite !lookup_ge_None_2; auto; try lia;
      rewrite length_fmap, length_seq; exact Hv.
Qed.

Lemma is_simple_short (str : list Z) (errstr : errcell) :
  index_safe str = true -> strlen str < 8 ->
  is_simple str errstr = Ret (true, too_short :: errstr).
Proof.
  intros Hsafe Hlen.
  destruct (count_loop_init str Hsafe) as (st & Hst & Ht & _);
    [unfold INT_MAX; lia|].
  unfold is_simple. rewrite Hst. simpl. rewrite Ht.
  destruct (Z.ltb_spec (strlen str) 8); [reflexivity|lia].
Qed.

Lemma is_simple_long (str : list Z) (errstr : errcell) :
  defined_run str = true -> 8 <= strlen str ->
  is_simple str errstr = Ret (is_simple_result str errstr).
Proof.
  intros Hdef Hlen. unfold defined_run in Hdef.
  apply andb_true_iff in Hdef as [Hsafe Hmax]. apply Z.leb_le in Hmax.
  destruct (count_loop_init str Hsafe) as (st & Hst & Ht & Hc & Hl & Hch & Hs & _);
    [lia|].
  pose proof (chars_byte_table _ _ Hl Hch) as Htab.
  unfold is_simple, is_simple_result, is_simple_reason. rewrite Hst. cbn [bind].
  rewrite Ht. destruct (Z.ltb_spec (strlen str) 8); [lia|].
  rewrite (class_percentages_ok st str) by (auto; lia). cbn [bind].
  change (pct_other (percentages_of str)) with (class_pct Other str).
  destruct (if class_pct Other str <? 20 then class_checks (percentages_of str) else None)
    as [reason|]; [reflexivity|].
  assert (Hdom : dominance_loop 255 0 0 (chars st) (strlen str)
                 = Ret (existsb (fun x => 60 <? pct x (strlen str)) (take 255 (chars st)))).
  { apply (dominance_loop_spec (chars st) (strlen str)) with (n := 255%nat) (i := 0%nat);
      try lia; try exact Hs.
    rewrite Htab. unfold byte_table. rewrite Forall_forall.
    intros x Hx. apply list_elem_of_In, in_map_iff in Hx as (v & <- & _).
    apply occurrences_le. }
  rewrite Hdom. cbn [bind]. unfold dominated. rewrite <- Htab.
  destruct (existsb _ _); reflexivity.
Qed.

(** ** How the results depend on the state *)

(** [is_simple] never reads [*errstr]: it faults, or leaves the cell as
    it is and returns false, or stores one reason and returns true, and
    which of the three, and which reason, is fixed by the string. *)
Lemma is_simple_shape (str : list Z) :
  (exists f, forall errstr, is_simple str errstr = Fault f)
  \/ (forall errstr, is_simple str errstr = Ret (false, errstr))
  \/ (exists reason, forall errstr, is_simple str errstr = Ret (true, reason :: errstr)).
Proof.
  unfold is_simple.
  destruct (count_loop str counters_init) as [st|f]; cbn [bind]; [|left; eauto].
  destruct (total st <? 8); [right; right; eauto|].
  destruct (class_percentages st) as [p|f]; cbn [bind]; [|left; eauto].
  destruct (if pct_other p <? 20 then class_checks p else None) as [reason|];
    [right; right; eauto|].
  destruct (dominance_loop 255 0 0 (chars st) (total st)) as [[|]|f]; cbn [bind];
    [right; right; eauto | right; left; eauto | left; eauto].
Qed.

Section CracklibProperties.

Variable dict : string.
Variable FascistCheck : list Z -> string -> option string.
Variable FascistCheckUser :
  list Z -> string -> option string -> option string -> option string.

Local Abbreviation body := (check_password_body dict FascistCheck FascistCheckUser).
Local Abbreviation check := (check_password dict FascistCheck FascistCheckUser).

(** Lines 208 to 233 fault, or return success and leave [*ppErrStr]
    as it is, or return -1 and store one reason; which of the three,
    and which reason, does not depend on the state on entry. *)
Lemma check_password_body_shape (pPasswd : list Z) (gecos uid : option string) :
  (exists f, forall st, body pPasswd gecos uid st = Fault f)
  \/ (forall st, exists lg,
        body pPasswd gecos uid st = Ret (LDAP_SUCCESS, mkState (ppErrStr st) lg))
  \/ (exists reason, forall st, exists lg,
        body pPasswd gecos uid st = Ret (-1, mkState (reason :: ppErrStr st) lg)).
Proof.
  unfold check_password_body.
  destruct (is_palindrome pPasswd) as [[|]|f]; cbn [bind].
  - right; right. eexists. intros st. eexists. reflexivity.
  - destruct (is_simple_shape pPasswd) as [[f Hf]|[Hs|[reason Hs]]].
    + left. exists f. intros st. now rewrite Hf.
    + destruct (deref uid) as [c|f] eqn:Hc.
      * destruct (if negb (c =? 0)
                  then FascistCheckUser pPasswd dict uid gecos
                  else FascistCheck pPasswd dict) as [e|] eqn:He.
        -- right; right. exists e. intros st. rewrite Hs. cbn. rewrite He.
           eexists. reflexivity.
        -- right; left. intros st. rewrite Hs. cbn. rewrite He.
           eexists. reflexivity.
      * left. exists f. intros st. now rewrite Hs.
    + right; right. exists reason. intros st. rewrite Hs. cbn.
      eexists. reflexivity.
  - left. eauto.
Qed.

(** After the block on [pEntry] both hints are null, whatever the
    entry holds; only the log can have grown. *)
Lemma identity_hints_cleared (pEntry : option Entry) (st : state) :
  exists lg, identity_hints pEntry st = (None, None, mkState (ppErrStr st) lg).
Proof.
  unfold identity_hints. destruct st as [cell lg0]. destruct pEntry as [e|].
  - destruct (get_user_info e) as [[found gecos] uid].
    destruct found; cbn; eexists; reflexivity.
  - eexists. reflexivity.
Qed.

(** The hints [get_user_info] finds in [sample_entry] are dropped. *)
Lemma sample_entry_hints_dropped (st : state) :
  get_user_info sample_entry = (true, Some "Alice"%string, Some "alice"%string)
  /\ identity_hints (Some sample_entry) st = (None, None, st).
Proof. destruct st. split; reflexivity. Qed.

(** An entry without a login name: the warning is logged, nothing else
    differs. *)
Lemma missing_uid_logged (st : state) :
  get_user_info [mkAttribute "gecos" ["Alice"%string]]
    = (false, Some "Alice"%string, None)
  /\ identity_hints (Some [mkAttribute "gecos" ["Alice"%string]]) st
    = (None, None, log LogNoUsername st).
Proof. destruct st. split; reflexivity. Qed.

Lemma check_password_hints (pPasswd : list Z) (st : state) (pEntry : option Entry) :
  exists lg, check pPasswd st pEntry = body pPasswd None None (mkState (ppErrStr st) lg).
Proof.
  unfold check_password.
  destruct (identity_hints_cleared pEntry st) as [lg ->]. eauto.
Qed.

Lemma check_password_shape (pPasswd : list Z) :
  (exists f, forall st pEntry, check pPasswd st pEntry = Fault f)
  \/ (forall st pEntry, exists lg,
        check pPasswd st pEntry = Ret (LDAP_SUCCESS, mkState (ppErrStr st) lg))
  \/ (exists reason, forall st pEntry, exists lg,
        check pPasswd st pEntry = Ret (-1, mkState (reason :: ppErrStr st) lg)).
Proof.
  destruct (check_password_body_shape pPasswd None None) as [[f Hf]|[Hs|[reason Hs]]].
  - left. exists f. intros st e.
    destruct (check_password_hints pPasswd st e) as [lg ->]. apply Hf.
  - right; left. intros st e.
    destruct (check_password_hints pPasswd st e) as [lg ->].
    apply (Hs (mkState (ppErrStr st) lg)).
  - right; right. exists reason. intros st e.
    destruct (check_password_hints pPasswd st e) as [lg ->].
    apply (Hs (mkState (ppErrStr st) lg)).
Qed.

(** With [uid] null, control that reaches line 223 reads through the
    null pointer: [check_password] never returns success. *)
Lemma check_password_accept_faults (pPasswd : list Z) (st : state)
    (pEntry : option Entry) :
  is_palindrome pPasswd = Ret false ->
  is_simple pPasswd (ppErrStr st) = Ret (false, ppErrStr st) ->
  check pPasswd st pEntry = Fault NullDereference.
Proof.
  intros Hp Hs. destruct (check_password_hints pPasswd st pEntry) as [lg ->].
  unfold check_password_body. rewrite Hp. cbn. rewrite Hs. reflexivity.
Qed.

Lemma check_password_palindrome (pPasswd : list Z) (st : state)
    (pEntry : option Entry) :
  is_palindrome pPasswd = Ret true ->
  exists lg, check pPasswd st pEntry
             = Ret (-1, mkState ("Password is a palindrome"%string :: ppErrStr st) lg).
Proof.
  intros Hp. destruct (check_password_hints pPasswd st pEntry) as [lg ->].
  unfold check_password_body. rewrite Hp. cbn. eauto.
Qed.

Lemma check_password_simple (pPasswd : list Z) (st : state)
    (pEntry : option Entry) (reason : string) :
  is_palindrome pPasswd = Ret false ->
  is_simple pPasswd (ppErrStr st) = Ret (true, reason :: ppErrStr st) ->
  exists lg, check pPasswd st pEntry
             = Ret (-1, mkState (reason :: ppErrStr st) lg).
Proof.
  intros Hp Hs. destruct (check_password_hints pPasswd st pEntry) as [lg ->].
  unfold check_password_body. rewrite Hp. cbn. rewrite Hs. cbn. eauto.
Qed.

End CracklibProperties.

(** ** The palindrome detector (C3) *)

(** C3, at the input where the code departs from it: on the empty
    string [strlen(str) - 1] wraps to [SIZE_MAX], the guard [i == j]
    does not fire, and the first iteration reads [str[SIZE_MAX]],
    outside the string; the call does not return false. *)
Theorem is_palindrome_empty_out_of_bounds :
  to_size_t (strlen [] - 1) = SIZE_MAX
  /\ is_palindrome [] = Fault OutOfBounds.
Proof. split; reflexivity. Qed.

(** The same on every buffer that starts with its terminator. *)
Lemma is_palindrome_empty_faults (str : list Z) :
  strlen str = 0 -> Z.of_nat (length str) < SIZE_MAX ->
  is_palindrome str = Fault OutOfBounds.
Proof.
  intros Hn Hlen. unfold is_palindrome. cbv zeta. rewrite Hn.
  change (to_size_t (0 - 1)) with SIZE_MAX.
  change (0 =? SIZE_MAX) with false. cbv iota.
  cbn [palindrome_loop]. rewrite char_at_ok by lia. cbn [bind].
  unfold char_at. destruct (Z.leb_spec SIZE_MAX (Z.of_nat (length str))); [lia|].
  rewrite andb_false_r. reflexivity.
Qed.

(** [check_password] on the empty password stops there. *)
Lemma check_password_empty_faults
    (dict : string) FascistCheck FascistCheckUser (st : state) (pEntry : option Entry) :
  check_password dict FascistCheck FascistCheckUser [] st pEntry = Fault OutOfBounds.
Proof.
  destruct (check_password_hints dict FascistCheck FascistCheckUser [] st pEntry)
    as [lg ->]. reflexivity.
Qed.

(** ** The length gate (C1) *)

(** C1 as stated fails: the two-char palindrome "aa" is shorter than 8
    and [check_password] rejects it with the palindrome reason. *)
Lemma short_palindrome_not_too_short :
  ~ (forall (dict : string) FascistCheck FascistCheckUser
            (str : list Z) (st : state) (pEntry : option Entry),
        strlen str < 8 ->
        exists lg, check_password dict FascistCheck FascistCheckUser str st pEntry
                   = Ret (-1, mkState (too_short :: ppErrStr st) lg)).
Proof.
  intros H.
  destruct (H "dict"%string empty_dictionary empty_dictionary_user
              (cstr "aa") fresh_state None) as [lg Hlg].
  - reflexivity.
  - vm_compute in Hlg. discriminate Hlg.
Qed.

(** C1, amended.  Whatever the content of a string shorter than 8
    chars that index [chars] in range, [is_simple] rejects it as too
    short, the empty string included.  [check_password] runs
    [is_palindrome] first: on such a string that is not empty it
    rejects with the palindrome reason when [is_palindrome] returns
    true and as too short when it returns false. *)
Theorem short_password_rejected
    (dict : string) FascistCheck FascistCheckUser
    (str : list Z) (st : state) (pEntry : option Entry) :
  strlen str < 8 -> index_safe str = true ->
  is_simple str (ppErrStr st) = Ret (true, too_short :: ppErrStr st)
  /\ (1 <= strlen str ->
      exists b lg,
        is_palindrome str = Ret b
        /\ (b = true <-> 2 <= strlen str /\ pairs_match str 0 (strlen str - 1))
        /\ check_password dict FascistCheck FascistCheckUser str st pEntry
           = Ret (-1, mkState ((if b then "Password is a palindrome"%string
                                else too_short) :: ppErrStr st) lg)).
Proof.
  intros Hlen Hsafe.
  pose proof (is_simple_short str (ppErrStr st) Hsafe Hlen) as Hs.
  split; [exact Hs|]. intros Hne.
  destruct (is_palindrome_nonempty str) as (b & Hb & Hiff);
    [unfold SIZE_MAX; lia|].
  exists b. destruct b.
  - destruct (check_password_palindrome dict FascistCheck FascistCheckUser
                str st pEntry Hb) as [lg Hlg]. eauto.
  - destruct (check_password_simple dict FascistCheck FascistCheckUser
                str st pEntry too_short Hb Hs) as [lg Hlg]. eauto.
Qed.

Lemma short_password_rejected_witness :
  strlen (cstr "short1!") < 8
  /\ index_safe (cstr "short1!") = true
  /\ is_simple (cstr "short1!") [] = Ret (true, [too_short])
  /\ exists b lg,
       is_palindrome (cstr "short1!") = Ret b
       /\ (b = true <-> 2 <= strlen (cstr "short1!")
                        /\ pairs_match (cstr "short1!") 0 (strlen (cstr "short1!") - 1))
       /\ check_password "dict" empty_dictionary empty_dictionary_user
            (cstr "short1!") fresh_state (Some sample_entry)
          = Ret (-1, mkState [if b then "Password is a palindrome"%string else too_short] lg).
Proof.
  assert (Hlen : strlen (cstr "short1!") < 8) by reflexivity.
  assert (Hsafe : index_safe (cstr "short1!") = true) by reflexivity.
  destruct (short_password_rejected "dict" empty_dictionary empty_dictionary_user
              (cstr "short1!") fresh_state (Some sample_entry) Hlen Hsafe)
    as [Hs Hcheck].
  split; [exact Hlen|]. split; [exact Hsafe|]. split; [exact Hs|].
  apply Hcheck. vm_compute. discriminate.
Defined.

(** ** The class bounds and the escape hatch (C4, C5) *)

(** The cascade of the source is the tabulated search: same gates, same
    order, same reasons. *)
Lemma class_checks_first_violation (p : percentages) :
  class_checks p = spec_first_violation (fun cls => class_percentage cls p).
Proof.
  unfold class_checks, spec_first_violation, spec_class_bounds, spec_row_gates.
  cbn [flat_map app bound_class bound_max bound_min reason_max reason_min
       class_percentage find fst snd option_map].
  repeat match goal with
         | |- context [if ?c then _ else _] => destruct c; cbn [fst snd option_map]
         end; reflexivity.
Qed.

Lemma class_percentage_of (cls : char_class) (str : list Z) :
  class_percentage cls (percentages_of str) = class_pct cls str.
Proof. destruct cls; reflexivity. Qed.

(** C4 as stated fails: in "11234" followed by three control chars the
    digits make up 62 percent, above their maximum of 40, yet the
    "other" class makes up 37 percent, the bounds are not evaluated and
    [is_simple] returns false. *)
Lemma class_bounds_skipped_example :
  ~ (forall (str : list Z) (errstr : errcell) (reason : string),
        defined_run str = true -> 8 <= strlen str ->
        spec_first_violation (fun cls => class_pct cls str) = Some reason ->
        is_simple str errstr = Ret (true, reason :: errstr)).
Proof.
  intros H.
  assert (Hrun : is_simple [49; 49; 50; 51; 52; 1; 2; 3] []
                 = Ret (true, ["Password contains too many digits"%string])).
  { apply H; [reflexivity | vm_compute; discriminate | reflexivity]. }
  vm_compute in Hrun. discriminate Hrun.
Qed.

(** C4, amended.  For every password of at least 8 chars whose "other"
    class makes up less than 20 percent, on a run within defined
    behaviour: the bounds are evaluated in the order digits, lowercase,
    uppercase, punctuation, whitespace, the maximum before the minimum,
    with the bounds [5,40], [10,60], [10,60], [5,70] and a maximum of 10
    for whitespace; the first violated bound gives the one reason
    stored, and when no bound is violated the verdict is that of the
    single-character loop. *)
Theorem class_bounds_first_violation (str : list Z) (errstr : errcell) :
  defined_run str = true -> 8 <= strlen str -> class_pct Other str < 20 ->
  is_simple str errstr
  = Ret (match spec_first_violation (fun cls => class_pct cls str) with
         | Some reason => (true, reason :: errstr)
         | None => if dominated str then (true, too_many_single :: errstr)
                   else (false, errstr)
         end).
Proof.
  intros Hdef Hlen Hother. rewrite (is_simple_long str errstr Hdef Hlen).
  unfold is_simple_result, is_simple_reason.
  destruct (Z.ltb_spec (strlen str) 8); [lia|].
  destruct (Z.ltb_spec (class_pct Other str) 20); [|lia].
  rewrite class_checks_first_violation.
  replace (spec_first_violation (fun cls => class_percentage cls (percentages_of str)))
    with (spec_first_violation (fun cls => class_pct cls str)).
  - destruct (spec_first_violation _); [reflexivity|].
    destruct (dominated str); reflexivity.
  - unfold spec_first_violation, spec_class_bounds, spec_row_gates.
    cbn [flat_map app bound_class bound_max bound_min reason_max reason_min].
    now rewrite !class_percentage_of.
Qed.

Lemma class_bounds_first_violation_witness :
  defined_run (cstr "11111111") = true
  /\ 8 <= strlen (cstr "11111111")
  /\ class_pct Other (cstr "11111111") < 20
  /\ is_simple (cstr "11111111") []
     = Ret (true, ["Password contains too many digits"%string]).
Proof.
  split; [reflexivity|]. split; [vm_compute; discriminate|].
  split; [reflexivity|].
  exact (class_bounds_first_violation (cstr "11111111") []
           eq_refl ltac:(vm_compute; discriminate) eq_refl).
Defined.

(** C5.  For every password of at least 8 chars whose "other" class
    makes up 20 percent or more, on a run within defined behaviour, no
    class bound is evaluated: [is_simple] returns what the
    single-character loop returns, so the only reason it can store is
    the one of that loop. *)
Theorem other_class_skips_bounds (str : list Z) (errstr : errcell) :
  defined_run str = true -> 8 <= strlen str -> 20 <= class_pct Other str ->
  is_simple str errstr
  = Ret (if dominated str then (true, too_many_single :: errstr) else (false, errstr)).
Proof.
  intros Hdef Hlen Hother. rewrite (is_simple_long str errstr Hdef Hlen).
  unfold is_simple_result, is_simple_reason.
  destruct (Z.ltb_spec (strlen str) 8); [lia|].
  destruct (Z.ltb_spec (class_pct Other str) 20); [lia|].
  destruct (dominated str); reflexivity.
Qed.

Lemma other_class_skips_bounds_witness :
  defined_run [49; 49; 50; 51; 52; 1; 2; 3] = true
  /\ 8 <= strlen [49; 49; 50; 51; 52; 1; 2; 3]
  /\ 20 <= class_pct Other [49; 49; 50; 51; 52; 1; 2; 3]
  /\ is_simple [49; 49; 50; 51; 52; 1; 2; 3] [] = Ret (false, []).
Proof.
  split; [reflexivity|]. split; [vm_compute; discriminate|].
  split; [vm_compute; discriminate|].
  exact (other_class_skips_bounds [49; 49; 50; 51; 52; 1; 2; 3] []
           eq_refl ltac:(vm_compute; discriminate) ltac:(vm_compute; discriminate)).
Defined.

(** ** Percentages (C6) *)

(** C6.  Every percentage in [is_simple] is [(count * 100) / total] with
    the quotient truncated.  [percent], which lines 84 to 89 and line 178
    both are, returns the largest integer [q] with
    [q * total <= count * 100]; one occurrence in nine gives 11, not 12,
    and so does every class that occurs once in a nine-char password in
    the percentages the source computes.  On a run within defined
    behaviour [is_simple] decides by these truncated quotients and by
    nothing else: the guard and the class bounds read the truncated
    class percentages, and the single-character loop compares the
    truncated percentage of each entry it visits with 60.  Three runs
    show the truncation in the verdict: the one space of
    [one_space_of_nine] counts 11 and is too much whitespace; 2
    lowercase letters of 21 count 9, below the minimum of 10 that a
    rounded 10 would meet; 14 occurrences of 23 count 60, not above the
    60 that a rounded 61 would exceed in the lowercase bound and in the
    loop. *)
Theorem percent_truncates :
  (forall count tot,
      0 <= count <= tot -> 0 < tot -> tot * 100 <= INT_MAX ->
      exists q, percent count tot = Ret q
                /\ q * tot <= count * 100 < (q + 1) * tot)
  /\ percent 1 9 = Ret 11
  /\ (forall (str : list Z) (cls : char_class),
        index_safe str = true -> strlen str = 9 -> class_count cls str = 1 ->
        exists st p,
          count_loop str counters_init = Ret st
          /\ class_percentages st = Ret p
          /\ class_percentage cls p = 11)
  /\ (forall (str : list Z) (errstr : errcell),
        defined_run str = true -> 8 <= strlen str ->
        is_simple str errstr
        = Ret (match (if (class_count Other str * 100) / strlen str <? 20
                      then class_checks
                             (mkPercentages
                                ((class_count Digit str * 100) / strlen str)
                                ((class_count Lower str * 100) / strlen str)
                                ((class_count Upper str * 100) / strlen str)
                                ((class_count Punct str * 100) / strlen str)
                                ((class_count Space str * 100) / strlen str)
                                ((class_count Other str * 100) / strlen str))
                      else None) with
               | Some reason => (true, reason :: errstr)
               | None =>
                   if existsb (fun x => 60 <? (x * 100) / strlen str)
                        (take 255 (byte_table str))
                   then (true, too_many_single :: errstr)
                   else (false, errstr)
               end))
  /\ (forall (a : list Z) (tot : Z),
        length a = 256%nat -> Forall (fun x => 0 <= x <= tot) a -> sumZ a = tot ->
        0 < tot -> tot * 100 <= INT_MAX ->
        dominance_loop 255 0 0 a tot
        = Ret (existsb (fun x => 60 <? (x * 100) / tot) (take 255 a)))
  /\ (forall errstr,
        is_simple one_space_of_nine errstr
        = Ret (true, "Password contains too much whitespace"%string :: errstr))
  /\ (forall errstr,
        is_simple two_lowercase_of_21 errstr
        = Ret (true, "Password contains too few lowercase letters"%string :: errstr))
  /\ (forall errstr, is_simple fourteen_of_23 errstr = Ret (false, errstr)).
Proof.
  split_and!.
  - intros count tot Hc Ht Hmax. exists (pct count tot).
    split; [apply percent_ok; assumption|].
    unfold pct.
    pose proof (Z.mul_div_le (count * 100) tot Ht).
    pose proof (Z.mul_succ_div_gt (count * 100) tot Ht).
    lia.
  - reflexivity.
  - intros str cls Hsafe Hlen Hcount.
    destruct (count_loop_init str Hsafe) as (st & Hst & Ht & Hc & _);
      [rewrite Hlen; unfold INT_MAX; lia|].
    exists st, (percentages_of str). split; [exact Hst|].
    split.
    + apply class_percentages_ok; auto; rewrite Hlen; unfold INT_MAX; lia.
    + rewrite class_percentage_of. unfold class_pct. rewrite Hcount, Hlen.
      reflexivity.
  - intros str errstr Hdef Hlen. rewrite (is_simple_long str errstr Hdef Hlen).
    unfold is_simple_result, is_simple_reason.
    destruct (Z.ltb_spec (strlen str) 8); [lia|].
    change (match (if class_pct Other str <? 20
                   then class_checks (percentages_of str) else None) with
            | Some reason => Some reason
            | None => if dominated str then Some too_many_single else None
            end)
      with (match (if (class_count Other str * 100) / strlen str <? 20
                   then class_checks
                          (mkPercentages
                             ((class_count Digit str * 100) / strlen str)
                             ((class_count Lower str * 100) / strlen str)
                             ((class_count Upper str * 100) / strlen str)
                             ((class_count Punct str * 100) / strlen str)
                             ((class_count Space str * 100) / strlen str)
                             ((class_count Other str * 100) / strlen str))
                   else None) with
            | Some reason => Some reason
            | None =>
                if existsb (fun x => 60 <? (x * 100) / strlen str)
                     (take 255 (byte_table str))
                then Some too_many_single else None
            end).
    destruct (if (class_count Other str * 100) / strlen str <? 20 then _ else None);
      [reflexivity|].
    destruct (existsb _ _); reflexivity.
  - intros a tot Hlen Hall Hsum Hpos Hmax.
    apply (dominance_loop_spec a tot Hall Hsum Hpos Hmax 255%nat 0%nat).
    rewrite Hlen. lia.
  - intros errstr. vm_compute. reflexivity.
  - intros errstr. vm_compute. reflexivity.
  - intros errstr. vm_compute. reflexivity.
Qed.

Lemma percent_truncates_witness :
  (exists q, percent 1 8 = Ret q /\ q * 8 <= 1 * 100 < (q + 1) * 8)
  /\ (exists st p,
        count_loop one_space_of_nine counters_init = Ret st
        /\ class_percentages st = Ret p
        /\ class_percentage Space p = 11)
  /\ defined_run two_lowercase_of_21 = true
  /\ 8 <= strlen two_lowercase_of_21
  /\ (class_count Lower two_lowercase_of_21 * 100) / strlen two_lowercase_of_21 = 9
  /\ is_simple two_lowercase_of_21 []
     = Ret (true, ["Password contains too few lowercase letters"%string])
  /\ dominance_loop 255 0 0 (byte_table fourteen_of_23) 23 = Ret false.
Proof.
  destruct percent_truncates as (Hfloor & _ & Hnine & Hsimple & Hloop & _).
  assert (Hdef : defined_run two_lowercase_of_21 = true) by reflexivity.
  assert (Hlen : 8 <= strlen two_lowercase_of_21) by (vm_compute; discriminate).
  split_and!.
  - apply Hfloor; [lia | lia | unfold INT_MAX; lia].
  - apply Hnine; reflexivity.
  - exact Hdef.
  - exact Hlen.
  - reflexivity.
  - rewrite (Hsimple two_lowercase_of_21 [] Hdef Hlen). vm_compute. reflexivity.
  - rewrite (Hloop (byte_table fourteen_of_23) 23).
    + vm_compute. reflexivity.
    + reflexivity.
    + apply Forall_forall. intros x Hx.
      assert (Hmem : forallb (fun y => (0 <=? y) && (y <=? 23))
                       (byte_table fourteen_of_23) = true)
        by (vm_compute; reflexivity).
      rewrite forallb_forall in Hmem. apply list_elem_of_In in Hx.
      specialize (Hmem x Hx). lia.
    + vm_compute. reflexivity.
    + lia.
    + unfold INT_MAX. lia.
Defined.

(** ** The frequency tables (C7) *)

(** On a string whose chars all index [chars] in range, both tables
    sum to the length: each char is counted in one class and in one
    entry of [chars]. *)
Lemma tables_sum_to_length (str : list Z) :
  index_safe str = true -> strlen str <= INT_MAX ->
  exists st,
    count_loop str counters_init = Ret st
    /\ total st = strlen str
    /\ class_sum st = strlen str
    /\ sumZ (chars st) = strlen str.
Proof.
  intros Hsafe Hmax.
  destruct (count_loop_init str Hsafe Hmax) as (st & Hst & Ht & _ & _ & _ & Hs & Hc).
  exists st. auto.
Qed.

(** C7, at an input where the code departs from it.  The UTF-8 bytes
    C3 9F of [eszett_password], read through a signed plain [char], are
    -61 and -97, and [chars[(size_t)*c]] for the first of them
    lies outside the 256 entries: the byte is counted in a class but in
    no entry of [chars], and the run leaves defined behaviour. *)
Theorem signed_char_index_out_of_bounds :
  256 <= to_size_t (-61)
  /\ count_loop eszett_password counters_init = Fault OutOfBounds
  /\ forall errstr, is_simple eszett_password errstr = Fault OutOfBounds.
Proof.
  split; [vm_compute; discriminate|].
  split; [vm_compute; reflexivity|].
  intros errstr. vm_compute. reflexivity.
Qed.

(** ** The single-character loop (C2) *)

(** [dominated] in terms of the char values: the loop sees the values
    0 to 254. *)
Lemma dominated_iff (str : list Z) :
  dominated str = true
  <-> exists v, 0 <= v < 255 /\ 60 < pct (occurrences v str) (strlen str).
Proof.
  unfold dominated, byte_table. rewrite existsb_exists.
  change (take 255 (map ?f (seq 0 256))) with (firstn 255 (map f (seq 0 256))).
  rewrite firstn_map.
  change (firstn 255 (seq 0 256)) with (seq 0 255).
  split.
  - intros (x & Hin & Hx). apply in_map_iff in Hin as (v & <- & Hv).
    apply in_seq in Hv. exists (Z.of_nat v). split; [lia|].
    now apply Z.ltb_lt.
  - intros (v & Hv & Hx). exists (occurrences v str). split.
    + apply in_map_iff. exists (Z.to_nat v). split.
      * now rewrite Z2Nat.id by lia.
      * apply in_seq. lia.
    + now apply Z.ltb_lt.
Qed.

(** What holds of the loop: a char value from 0 to 254 above 60 percent
    is rejected once the class bounds are passed or skipped. *)
Lemma single_character_rejected (str : list Z) (errstr : errcell) (v : Z) :
  defined_run str = true -> 8 <= strlen str ->
  (if class_pct Other str <? 20 then class_checks (percentages_of str) else None) = None ->
  0 <= v < 255 -> 60 < pct (occurrences v str) (strlen str) ->
  is_simple str errstr = Ret (true, too_many_single :: errstr).
Proof.
  intros Hdef Hlen Hchecks Hv Hpct. rewrite (is_simple_long str errstr Hdef Hlen).
  unfold is_simple_result, is_simple_reason.
  destruct (Z.ltb_spec (strlen str) 8); [lia|]. rewrite Hchecks.
  replace (dominated str) with true; [reflexivity|].
  symmetry. apply dominated_iff. eauto.
Qed.


(** ** Determinism and the identity hints (C8, C9) *)

(** The verdict of a call that returns is fixed by the password: not by
    the state the call starts in, not by the entry. *)
Lemma check_password_verdict_stable
    (dict : string) FascistCheck FascistCheckUser (pPasswd : list Z)
    (st1 st2 : state) (e1 e2 : option Entry) (r1 : Z * state) :
  check_password dict FascistCheck FascistCheckUser pPasswd st1 e1 = Ret r1 ->
  exists r2,
    check_password dict FascistCheck FascistCheckUser pPasswd st2 e2 = Ret r2
    /\ verdict_of r1 = verdict_of r2.
Proof.
  intros H1.
  destruct (check_password_shape dict FascistCheck FascistCheckUser pPasswd)
    as [[f Hf]|[Hs|[reason Hs]]].
  - rewrite Hf in H1. discriminate H1.
  - destruct (Hs st1 e1) as [lg1 Hr1]. destruct (Hs st2 e2) as [lg2 Hr2].
    rewrite Hr1 in H1. injection H1 as <-. eexists. split; [exact Hr2|reflexivity].
  - destruct (Hs st1 e1) as [lg1 Hr1]. destruct (Hs st2 e2) as [lg2 Hr2].
    rewrite Hr1 in H1. injection H1 as <-. eexists. split; [exact Hr2|reflexivity].
Qed.

(** C8.  Two invocations on the same password and the same entry
    argument, the absent one included, started in any two states (the
    second may start in the state the first has left): when one returns
    a verdict the other returns, with the same return code and, on a
    rejection, the same reason string. *)
Theorem check_password_deterministic
    (dict : string) FascistCheck FascistCheckUser (pPasswd : list Z)
    (pEntry : option Entry) (st1 st2 : state) (r1 : Z * state) :
  check_password dict FascistCheck FascistCheckUser pPasswd st1 pEntry = Ret r1 ->
  exists r2,
    check_password dict FascistCheck FascistCheckUser pPasswd st2 pEntry = Ret r2
    /\ fst r2 = fst r1
    /\ verdict_of r2 = verdict_of r1.
Proof.
  intros H1.
  destruct (check_password_verdict_stable dict FascistCheck FascistCheckUser
              pPasswd st1 st2 pEntry pEntry r1 H1) as (r2 & Hr2 & Hv).
  exists r2. split; [exact Hr2|]. split; [|now symmetry].
  unfold verdict_of in Hv. now injection Hv.
Qed.

Lemma check_password_deterministic_witness :
  check_password "dict" empty_dictionary empty_dictionary_user
    (cstr "short1!") fresh_state None
  = Ret (-1, mkState [too_short] [LogSimple None (Some too_short)])
  /\ exists r2,
       check_password "dict" empty_dictionary empty_dictionary_user
         (cstr "short1!") (mkState [too_short] [LogSimple None (Some too_short)]) None
       = Ret r2
       /\ fst r2 = -1
       /\ verdict_of r2 = (-1, Some too_short).
Proof.
  split; [reflexivity|].
  exact (check_password_deterministic "dict" empty_dictionary empty_dictionary_user
           (cstr "short1!") None fresh_state
           (mkState [too_short] [LogSimple None (Some too_short)])
           (-1, mkState [too_short] [LogSimple None (Some too_short)]) eq_refl).
Defined.

(** No call reaches cracklib: the result is the same whatever the two
    checks and the dictionary are. *)
Lemma check_password_ignores_cracklib
    (dict dict' : string) FascistCheck FascistCheck' FascistCheckUser FascistCheckUser'
    (pPasswd : list Z) (st : state) (pEntry : option Entry) :
  check_password dict FascistCheck FascistCheckUser pPasswd st pEntry
  = check_password dict' FascistCheck' FascistCheckUser' pPasswd st pEntry.
Proof.
  unfold check_password.
  destruct (identity_hints_cleared pEntry st) as [lg ->].
  unfold check_password_body.
  destruct (is_palindrome pPasswd) as [[|]|f]; reflexivity.
Qed.

(** C9, at an input where the code departs from it.  "Ab1!Ab1!" is no
    palindrome and passes [is_simple]; with or without an entry, [uid]
    is null when line 223 evaluates [*uid], so the call reads through a
    null pointer before either cracklib check is called: no oracle is
    invoked and no verdict is returned. *)
Theorem oracle_stage_null_dereference
    (dict : string) FascistCheck FascistCheckUser
    (st : state) (pEntry : option Entry) :
  is_palindrome (cstr "Ab1!Ab1!") = Ret false
  /\ is_simple (cstr "Ab1!Ab1!") (ppErrStr st) = Ret (false, ppErrStr st)
  /\ (exists lg, identity_hints pEntry st = (None, None, mkState (ppErrStr st) lg))
  /\ check_password dict FascistCheck FascistCheckUser (cstr "Ab1!Ab1!") st pEntry
     = Fault NullDereference.
Proof.
  assert (Hp : is_palindrome (cstr "Ab1!Ab1!") = Ret false) by reflexivity.
  assert (Hs : is_simple (cstr "Ab1!Ab1!") (ppErrStr st) = Ret (false, ppErrStr st))
    by (vm_compute; reflexivity).
  split_and!; auto.
  - apply identity_hints_cleared.
  - now apply check_password_accept_faults.
Qed.

(** ** The error-string out-parameter (C10) *)

(** C10.  [*errstr] is written exactly when the evaluation rejects.
    [is_simple] returning false leaves the cell as it was and returning
    true has stored one reason.  Lines 208 to 233, for any values of the
    hints, and [check_password] itself leave [*ppErrStr] as it was when
    they return success and have stored one reason when they return
    -1. *)
Theorem errstr_written_iff_rejected
    (dict : string) FascistCheck FascistCheckUser (pPasswd : list Z)
    (gecos uid : option string) (st : state) (pEntry : option Entry) :
  (forall b cell,
      is_simple pPasswd (ppErrStr st) = Ret (b, cell) ->
      if b then exists reason, cell = reason :: ppErrStr st
      else cell = ppErrStr st)
  /\ (forall rc st',
        check_password_body dict FascistCheck FascistCheckUser pPasswd gecos uid st
        = Ret (rc, st') ->
        (rc = LDAP_SUCCESS /\ ppErrStr st' = ppErrStr st)
        \/ (rc = -1 /\ exists reason, ppErrStr st' = reason :: ppErrStr st))
  /\ (forall rc st',
        check_password dict FascistCheck FascistCheckUser pPasswd st pEntry
        = Ret (rc, st') ->
        (rc = LDAP_SUCCESS /\ ppErrStr st' = ppErrStr st)
        \/ (rc = -1 /\ exists reason, ppErrStr st' = reason :: ppErrStr st)).
Proof.
  split_and!.
  - intros b cell H.
    destruct (is_simple_shape pPasswd) as [[f Hf]|[Hs|[reason Hs]]];
      rewrite ?Hf, ?Hs in H; try discriminate H; injection H as <- <-; eauto.
  - intros rc st' H.
    destruct (check_password_body_shape dict FascistCheck FascistCheckUser
                pPasswd gecos uid) as [[f Hf]|[Hs|[reason Hs]]].
    + rewrite Hf in H. discriminate H.
    + destruct (Hs st) as [lg Hr]. rewrite Hr in H. injection H as <- <-. left. auto.
    + destruct (Hs st) as [lg Hr]. rewrite Hr in H. injection H as <- <-.
      right. simpl. eauto.
  - intros rc st' H.
    destruct (check_password_shape dict FascistCheck FascistCheckUser pPasswd)
      as [[f Hf]|[Hs|[reason Hs]]].
    + rewrite Hf in H. discriminate H.
    + destruct (Hs st pEntry) as [lg Hr]. rewrite Hr in H. injection H as <- <-.
      left. auto.
    + destruct (Hs st pEntry) as [lg Hr]. rewrite Hr in H. injection H as <- <-.
      right. simpl. eauto.
Qed.

Lemma errstr_written_iff_rejected_witness :
  is_simple (cstr "Ab1!Ab1!") ["stale"%string] = Ret (false, ["stale"%string])
  /\ check_password_body "dict" empty_dictionary empty_dictionary_user
       (cstr "Ab1!Ab1!") None (Some "alice"%string) (mkState ["stale"%string] [])
     = Ret (LDAP_SUCCESS, mkState ["stale"%string] [])
  /\ check_password "dict" empty_dictionary empty_dictionary_user
       (cstr "11111111") (mkState ["stale"%string] []) (Some sample_entry)
     = Ret (-1, mkState ["Password is a palindrome"%string; "stale"%string]
                  [LogPalindrome None])
  /\ ((LDAP_SUCCESS = LDAP_SUCCESS /\ ["stale"%string] = ["stale"%string])
      \/ (LDAP_SUCCESS = -1 /\ exists reason, ["stale"%string] = [reason; "stale"%string]))
  /\ ((-1 = LDAP_SUCCESS
       /\ ["Password is a palindrome"%string; "stale"%string] = ["stale"%string])
      \/ (-1 = -1 /\ exists reason,
            ["Password is a palindrome"%string; "stale"%string]
            = [reason; "stale"%string])).
Proof.
  split; [reflexivity|]. split; [reflexivity|]. split; [reflexivity|].
  destruct (errstr_written_iff_rejected "dict" empty_dictionary empty_dictionary_user
              (cstr "Ab1!Ab1!") None (Some "alice"%string)
              (mkState ["stale"%string] []) None) as (_ & Hbody & _).
  destruct (errstr_written_iff_rejected "dict" empty_dictionary empty_dictionary_user
              (cstr "11111111") None None
              (mkState ["stale"%string] []) (Some sample_entry)) as (_ & _ & Hcheck).
  split.
  - exact (Hbody LDAP_SUCCESS (mkState ["stale"%string] []) eq_refl).
  - exact (Hcheck (-1) (mkState ["Password is a palindrome"%string; "stale"%string]
                          [LogPalindrome None]) eq_refl).
Defined.

(** * Properties of the whole module *)

(** ** get_user_info *)

Lemma gecos_is_not_uid : "gecos"%string <> "uid"%string.
Proof. discriminate. Qed.

(** What the loop leaves in the two out-parameters, in terms of what
    they held and of the attributes it was given. *)
Lemma get_user_info_loop_found (attrs : list Attribute) :
  forall gecos uid gecos' uid',
    get_user_info_loop attrs gecos uid = (gecos', uid') ->
    (gecos' <> None <-> gecos <> None \/ Exists (names_value "gecos") attrs)
    /\ (uid' <> None <-> uid <> None \/ Exists (names_value "uid") attrs).
Proof.
  induction attrs as [|a next IH]; intros gecos uid gecos' uid' H.
  - injection H as <- <-. rewrite !Exists_nil. tauto.
  - assert (Hsome : forall v : string, Some v <> None) by discriminate.
    assert (Hnil : forall (v : string) vals, v :: vals <> []) by discriminate.
    rewrite !Exists_cons. unfold names_value at 1 3.
    destruct gecos as [g|], uid as [u|]; cbn [get_user_info_loop] in H.
    1: { injection H as <- <-. split; split; auto. }
    all: destruct (String.eqb_spec (ad_cname a) "gecos") as [Eg|Eg];
      destruct (String.eqb_spec (ad_cname a) "uid") as [Eu|Eu];
      try (exfalso; rewrite Eg in Eu; discriminate Eu);
      destruct (a_vals a) as [|v vals];
      destruct (IH _ _ _ _ H) as [-> ->]; clear IH H;
      split; split; intros [?|[?|?]]; auto; try tauto; try congruence;
      try (left; apply Hsome); try (right; left; split; [assumption|apply Hnil]).
Qed.

(** X1.  [get_user_info] reports the login name found exactly when some
    attribute of the entry is named "uid", by an exact comparison of the
    names, and has at least one value; the display name it hands back is
    non-null exactly when some attribute named "gecos" has a value. *)
Theorem get_user_info_finds_named_attributes (pEntry : Entry) :
  (fst (fst (get_user_info pEntry)) = true
   <-> Exists (names_value "uid") pEntry)
  /\ (snd (get_user_info pEntry) <> None
      <-> Exists (names_value "uid") pEntry)
  /\ (snd (fst (get_user_info pEntry)) <> None
      <-> Exists (names_value "gecos") pEntry).
Proof.
  unfold get_user_info.
  destruct (get_user_info_loop pEntry None None) as [gecos uid] eqn:Hloop.
  destruct (get_user_info_loop_found _ _ _ _ _ Hloop) as [Hg Hu].
  cbn [fst snd]. rewrite bool_decide_eq_true.
  rewrite Hg, Hu. intuition congruence.
Qed.

Lemma first_value_absent (name : string) (attrs : list Attribute) :
  ~ In name (map ad_cname attrs) -> first_value name attrs = None.
Proof.
  induction attrs as [|a next IH]; intros Hnot; [reflexivity|].
  cbn [first_value]. cbn [map In] in Hnot.
  destruct (String.eqb_spec (ad_cname a) name) as [E|E]; [tauto|].
  apply IH. tauto.
Qed.

(** With every attribute name occurring once, the loop is two lookups
    by name, each filling an out-parameter that is still null. *)
Lemma get_user_info_loop_lookup (attrs : list Attribute) :
  forall gecos uid,
    List.NoDup (map ad_cname attrs) ->
    (gecos <> None -> ~ In "gecos"%string (map ad_cname attrs)) ->
    (uid <> None -> ~ In "uid"%string (map ad_cname attrs)) ->
    get_user_info_loop attrs gecos uid
    = (match first_value "gecos" attrs with Some v => Some v | None => gecos end,
       match first_value "uid" attrs with Some v => Some v | None => uid end).
Proof.
  induction attrs as [|a next IH]; intros gecos uid Hnd Hg Hu; [reflexivity|].
  cbn [map] in *. apply List.NoDup_cons_iff in Hnd as [Hfresh Hnd].
  assert (Hsome : forall v : string, Some v <> None) by discriminate.
  assert (Hg' : gecos <> None -> ~ In "gecos"%string (map ad_cname next))
    by (intros H Hin; apply (Hg H); right; exact Hin).
  assert (Hu' : uid <> None -> ~ In "uid"%string (map ad_cname next))
    by (intros H Hin; apply (Hu H); right; exact Hin).
  assert (Hboth : forall g u, gecos = Some g -> uid = Some u ->
            get_user_info_loop (a :: next) gecos uid
            = (match first_value "gecos" (a :: next) with
               | Some v => Some v | None => gecos end,
               match first_value "uid" (a :: next) with
               | Some v => Some v | None => uid end)).
  { intros g u -> ->. cbn [get_user_info_loop].
    rewrite !first_value_absent by (cbn [map]; auto). reflexivity. }
  assert (Hmore : gecos = None \/ uid = None ->
            get_user_info_loop (a :: next) gecos uid
            = (match first_value "gecos" (a :: next) with
               | Some v => Some v | None => gecos end,
               match first_value "uid" (a :: next) with
               | Some v => Some v | None => uid end)).
  { intros Hnull.
    assert (Hloop : get_user_info_loop (a :: next) gecos uid
      = match String.eqb (ad_cname a) "gecos", String.eqb (ad_cname a) "uid", a_vals a with
        | true, _, v :: _ => get_user_info_loop next (Some v) uid
        | _, true, v :: _ => get_user_info_loop next gecos (Some v)
        | _, _, _ => get_user_info_loop next gecos uid
        end).
    { destruct Hnull as [-> | ->]; [|destruct gecos]; reflexivity. }
    rewrite Hloop. clear Hloop. cbn [first_value].
    destruct (String.eqb_spec (ad_cname a) "gecos") as [Eg|Eg];
      destruct (String.eqb_spec (ad_cname a) "uid") as [Eu|Eu];
      try (exfalso; rewrite Eg in Eu; discriminate Eu);
      destruct (a_vals a) as [|v vals].
    - rewrite IH by auto. reflexivity.
    - assert (Hgnull : gecos = None).
      { destruct gecos; [|reflexivity]. exfalso. apply (Hg (Hsome _)). left. exact Eg. }
      rewrite Eg in Hfresh. rewrite IH by auto.
      rewrite (first_value_absent "gecos" next Hfresh). reflexivity.
    - rewrite IH by auto. reflexivity.
    - assert (Hunull : uid = None).
      { destruct uid; [|reflexivity]. exfalso. apply (Hu (Hsome _)). left. exact Eu. }
      rewrite Eu in Hfresh. rewrite IH by auto.
      rewrite (first_value_absent "uid" next Hfresh). reflexivity.
    - rewrite IH by auto. reflexivity.
    - rewrite IH by auto. reflexivity. }
  destruct gecos as [g|]; [|auto]. destruct uid as [u|]; [|auto]. eauto.
Qed.

(** X2.  On an entry whose attribute names are all different, as the
    attributes of a directory entry are, [get_user_info] is a lookup by
    name: each hint is the first value of the attribute named "gecos",
    respectively "uid", null when there is no such attribute or when it
    has no value, and the result is the test that the login name is
    non-null. *)
Theorem get_user_info_is_lookup (pEntry : Entry) :
  List.NoDup (map ad_cname pEntry) ->
  get_user_info pEntry
  = (bool_decide (first_value "uid" pEntry <> None),
     first_value "gecos" pEntry, first_value "uid" pEntry).
Proof.
  intros Hnd. unfold get_user_info.
  rewrite (get_user_info_loop_lookup pEntry None None Hnd) by tauto.
  destruct (first_value "gecos" pEntry), (first_value "uid" pEntry); reflexivity.
Qed.

Lemma get_user_info_is_lookup_witness :
  List.NoDup (map ad_cname sample_entry)
  /\ get_user_info sample_entry
     = (true, Some "Alice"%string, Some "alice"%string).
Proof.
  assert (Hnd : List.NoDup (map ad_cname sample_entry)).
  { cbn. repeat constructor; cbn; intuition discriminate. }
  split; [exact Hnd|].
  exact (get_user_info_is_lookup sample_entry Hnd).
Defined.

(** Each hint the loop returns was there on entry or is the first value
    of an attribute of that name. *)
Lemma get_user_info_loop_provenance (attrs : list Attribute) :
  forall gecos uid gecos' uid',
    get_user_info_loop attrs gecos uid = (gecos', uid') ->
    (forall v, gecos' = Some v ->
       gecos = Some v
       \/ exists a, In a attrs /\ ad_cname a = "gecos"%string /\ head (a_vals a) = Some v)
    /\ (forall v, uid' = Some v ->
          uid = Some v
          \/ exists a, In a attrs /\ ad_cname a = "uid"%string /\ head (a_vals a) = Some v).
Proof.
  induction attrs as [|a next IH]; intros gecos uid gecos' uid' H.
  - injection H as <- <-. auto.
  - assert (Hnext : forall g u,
      get_user_info_loop next g u = (gecos', uid') ->
      (forall v, g = Some v -> gecos = Some v
         \/ (ad_cname a = "gecos"%string /\ head (a_vals a) = Some v)) ->
      (forall v, u = Some v -> uid = Some v
         \/ (ad_cname a = "uid"%string /\ head (a_vals a) = Some v)) ->
      (forall v, gecos' = Some v ->
         gecos = Some v
         \/ exists b, In b (a :: next) /\ ad_cname b = "gecos"%string
                      /\ head (a_vals b) = Some v)
      /\ (forall v, uid' = Some v ->
            uid = Some v
            \/ exists b, In b (a :: next) /\ ad_cname b = "uid"%string
                         /\ head (a_vals b) = Some v)).
    { intros g u Hrec Hg Hu. destruct (IH _ _ _ _ Hrec) as [IHg IHu].
      split; intros v Hv.
      - destruct (IHg v Hv) as [E|(b & Hin & Hb)].
        + destruct (Hg v E) as [?|[? ?]]; [auto|].
          right. exists a. cbn [In]. auto.
        + right. exists b. cbn [In]. tauto.
      - destruct (IHu v Hv) as [E|(b & Hin & Hb)].
        + destruct (Hu v E) as [?|[? ?]]; [auto|].
          right. exists a. cbn [In]. auto.
        + right. exists b. cbn [In]. tauto. }
    destruct gecos as [g|], uid as [u|]; cbn [get_user_info_loop] in H.
    1: { injection H as <- <-. auto. }
    all: destruct (String.eqb_spec (ad_cname a) "gecos") as [Eg|Eg];
      destruct (String.eqb_spec (ad_cname a) "uid") as [Eu|Eu];
      try (exfalso; rewrite Eg in Eu; discriminate Eu);
      destruct (a_vals a) as [|v0 vals] eqn:Hvals;
      (eapply Hnext; [exact H| |]); intros v Hv; auto;
      injection Hv as <-; right; rewrite ?Hvals; auto.
Qed.

(** X3.  A hint [get_user_info] hands back is the first value, and only
    the first, of an attribute of the entry that carries the name asked
    for: nothing is taken from an attribute of another name or from a
    later value. *)
Theorem get_user_info_returns_first_values (pEntry : Entry) (v : string) :
  (snd (get_user_info pEntry) = Some v ->
   exists a, In a pEntry /\ ad_cname a = "uid"%string /\ head (a_vals a) = Some v)
  /\ (snd (fst (get_user_info pEntry)) = Some v ->
      exists a, In a pEntry /\ ad_cname a = "gecos"%string /\ head (a_vals a) = Some v).
Proof.
  unfold get_user_info.
  destruct (get_user_info_loop pEntry None None) as [gecos uid] eqn:Hloop.
  destruct (get_user_info_loop_provenance _ _ _ _ _ Hloop) as [Hg Hu].
  cbn [fst snd]. split; intros Hv.
  - destruct (Hu v Hv) as [E|H]; [discriminate E|exact H].
  - destruct (Hg v Hv) as [E|H]; [discriminate E|exact H].
Qed.

Lemma get_user_info_returns_first_values_witness :
  snd (get_user_info
         [mkAttribute "uid" ["alice"%string; "alias"%string];
          mkAttribute "UID" ["other"%string]]) = Some "alice"%string
  /\ exists a,
       In a [mkAttribute "uid" ["alice"%string; "alias"%string];
             mkAttribute "UID" ["other"%string]]
       /\ ad_cname a = "uid"%string /\ head (a_vals a) = Some "alice"%string.
Proof.
  split; [reflexivity|].
  exact (proj1 (get_user_info_returns_first_values
                  [mkAttribute "uid" ["alice"%string; "alias"%string];
                   mkAttribute "UID" ["other"%string]] "alice"%string) eq_refl).
Defined.

Lemma get_user_info_finds_named_attributes_witness :
  Exists (names_value "uid") sample_entry
  /\ fst (fst (get_user_info sample_entry)) = true.
Proof.
  assert (Huid : Exists (names_value "uid") sample_entry).
  { apply Exists_cons_tl, Exists_cons_hd. split; [reflexivity|discriminate]. }
  split; [exact Huid|].
  exact (proj2 (proj1 (get_user_info_finds_named_attributes sample_entry)) Huid).
Defined.

(** ** is_palindrome *)

(** X4.  On a buffer shorter than the address space [is_palindrome]
    stays within the string exactly when the string is not empty; and
    whenever it returns, it returns true exactly when the string has two
    chars or more and its case-folded chars read the same from both
    ends. *)
Theorem is_palindrome_defined_iff_nonempty (str : list Z) :
  Z.of_nat (length str) < SIZE_MAX ->
  ((exists b, is_palindrome str = Ret b) <-> 1 <= strlen str)
  /\ (forall b, is_palindrome str = Ret b ->
        (b = true <-> 2 <= strlen str
                      /\ map tolower (c_str str) = rev (map tolower (c_str str)))).
Proof.
  intros Hlen.
  pose proof (strlen_nonneg str) as Hn. pose proof (strlen_le_length str) as Hle.
  destruct (Z.eq_dec (strlen str) 0) as [H0|H0].
  - pose proof (is_palindrome_empty_faults str H0 Hlen) as Hf. split.
    + split; [intros [b Hb]; rewrite Hf in Hb; discriminate Hb | lia].
    + intros b Hb. rewrite Hf in Hb. discriminate Hb.
  - destruct (is_palindrome_reverse str) as (b & Hb & Hiff); [lia|]. split.
    + split; [lia | eauto].
    + intros b' Hb'. rewrite Hb in Hb'. injection Hb' as <-. exact Hiff.
Qed.

Lemma is_palindrome_defined_iff_nonempty_witness :
  Z.of_nat (length (cstr "Racecar")) < SIZE_MAX
  /\ is_palindrome (cstr "Racecar") = Ret true
  /\ map tolower (c_str (cstr "Racecar")) = rev (map tolower (c_str (cstr "Racecar"))).
Proof.
  assert (Hlen : Z.of_nat (length (cstr "Racecar")) < SIZE_MAX) by reflexivity.
  split; [exact Hlen|]. split; [reflexivity|].
  exact (proj2 (proj1 (proj2 (is_palindrome_defined_iff_nonempty (cstr "Racecar") Hlen)
                         true eq_refl) eq_refl)).
Defined.

Lemma tolower_nul (c : Z) : tolower c = 0 <-> c = 0.
Proof.
  unfold tolower, isupper, between.
  destruct (Z.leb_spec 65 c), (Z.leb_spec c 90); simpl; lia.
Qed.

Lemma same_up_to_case_c_str (s1 s2 : list Z) :
  same_up_to_case s1 s2 -> same_up_to_case (c_str s1) (c_str s2).
Proof.
  induction 1 as [|a b s1 s2 Hab _ IH]; [constructor|].
  cbn [c_str]. destruct (Z.eqb_spec a 0) as [->|Ha], (Z.eqb_spec b 0) as [->|Hb].
  - constructor.
  - exfalso. apply Hb, tolower_nul. rewrite <- Hab. reflexivity.
  - exfalso. apply Ha, tolower_nul. rewrite Hab. reflexivity.
  - constructor; assumption.
Qed.

Lemma same_up_to_case_nth (s1 s2 : list Z) (k : nat) :
  same_up_to_case s1 s2 -> tolower (nth k s1 0) = tolower (nth k s2 0).
Proof.
  intros H. revert k. induction H as [|a b s1 s2 Hab _ IH]; intros [|k]; cbn; auto.
Qed.

Lemma palindrome_loop_same_up_to_case (s1 s2 : list Z) (fuel : nat) :
  same_up_to_case s1 s2 ->
  forall i j, palindrome_loop fuel s1 i j = palindrome_loop fuel s2 i j.
Proof.
  intros H. pose proof (Forall2_length _ _ _ H) as Hlen.
  induction fuel as [|fuel IH]; intros i j; [reflexivity|].
  cbn [palindrome_loop]. unfold char_at. rewrite <- Hlen.
  destruct ((0 <=? i) && (i <=? Z.of_nat (length s1))); [|reflexivity].
  destruct ((0 <=? j) && (j <=? Z.of_nat (length s1))); [|reflexivity].
  cbn [bind].
  rewrite (same_up_to_case_nth s1 s2 (Z.to_nat i) H),
    (same_up_to_case_nth s1 s2 (Z.to_nat j) H).
  destruct (negb _); [reflexivity|].
  destruct (_ <=? _); [apply IH | reflexivity].
Qed.

(** X5.  [is_palindrome] does not see letter case: on two strings that
    agree char by char once folded to lowercase it gives the same
    outcome, so that changing the case of any letters of a password
    never changes the answer. *)
Theorem is_palindrome_ignores_case (s1 s2 : list Z) :
  same_up_to_case s1 s2 -> is_palindrome s1 = is_palindrome s2.
Proof.
  intros H. unfold is_palindrome, strlen.
  rewrite (Forall2_length _ _ _ (same_up_to_case_c_str s1 s2 H)).
  rewrite (Forall2_length _ _ _ H).
  now rewrite (palindrome_loop_same_up_to_case s1 s2 _ H).
Qed.

Lemma is_palindrome_ignores_case_witness :
  same_up_to_case (cstr "AbCbA1") (cstr "aBcBa1")
  /\ is_palindrome (cstr "AbCbA1") = is_palindrome (cstr "aBcBa1").
Proof.
  assert (H : same_up_to_case (cstr "AbCbA1") (cstr "aBcBa1"))
    by (repeat constructor).
  split; [exact H|]. exact (is_palindrome_ignores_case _ _ H).
Defined.

(** ** is_simple *)

Lemma class_checks_none (str : list Z) :
  class_checks (percentages_of str) = None <-> within_class_bounds str.
Proof.
  unfold class_checks, within_class_bounds, percentages_of.
  cbn [pct_digits pct_lower pct_upper pct_punct pct_space].
  repeat match goal with
         | |- context [if ?a <? ?b then _ else _] => destruct (Z.ltb_spec a b)
         end;
    (split; [try discriminate; intros _; lia | try reflexivity; lia]).
Qed.

Lemma dominated_false_iff (str : list Z) :
  dominated str = false
  <-> forall v, 0 <= v < 255 -> pct (occurrences v str) (strlen str) <= 60.
Proof.
  rewrite <- not_true_iff_false, dominated_iff. split.
  - intros Hnone v Hv.
    destruct (Z_le_gt_dec (pct (occurrences v str) (strlen str)) 60); [assumption|].
    exfalso. apply Hnone. exists v. split; [exact Hv|lia].
  - intros Hall (v & Hv & Hgt). specialize (Hall v Hv). lia.
Qed.

(** The verdict "false" of [is_simple], in terms of the string. *)
Lemma is_simple_false_iff (str : list Z) (errstr : errcell) :
  defined_run str = true ->
  (is_simple str errstr = Ret (false, errstr)
   <-> 8 <= strlen str
       /\ (class_pct Other str < 20 -> within_class_bounds str)
       /\ (forall v, 0 <= v < 255 -> pct (occurrences v str) (strlen str) <= 60)).
Proof.
  intros Hdef. destruct (Z_lt_ge_dec (strlen str) 8) as [Hshort|Hlong].
  - apply andb_true_iff in Hdef as [Hsafe _].
    rewrite (is_simple_short str errstr Hsafe Hshort).
    split; [discriminate | lia].
  - rewrite (is_simple_long str errstr Hdef) by lia.
    unfold is_simple_result, is_simple_reason.
    destruct (Z.ltb_spec (strlen str) 8); [lia|].
    rewrite <- class_checks_none, <- dominated_false_iff.
    destruct (Z.ltb_spec (class_pct Other str) 20) as [Hother|Hother].
    + destruct (class_checks (percentages_of str)) as [reason|].
      * split; [discriminate|]. intros (_ & Hb & _). discriminate (Hb Hother).
      * destruct (dominated str).
        -- split; [discriminate|]. intros (_ & _ & Hd). discriminate Hd.
        -- split; [|reflexivity]. intros _. split; [lia|]. split; auto.
    + destruct (dominated str).
      * split; [discriminate|]. intros (_ & _ & Hd). discriminate Hd.
      * split; [|reflexivity]. intros _. split; [lia|]. split; [lia|reflexivity].
Qed.

(** X6.  Which passwords [is_simple] lets through, on a run within
    defined behaviour: it returns false exactly when the password has
    at least 8 chars, its class percentages lie within the five bands
    (digits 5..40, lowercase 10..60, uppercase 10..60, punctuation
    5..70, whitespace at most 10) unless the "other" class reaches 20
    percent, and no char value from 0 to 254 makes up more than 60
    percent. *)
Theorem is_simple_accepts_iff (str : list Z) (errstr : errcell) :
  defined_run str = true ->
  (is_simple str errstr = Ret (false, errstr)
   <-> 8 <= strlen str
       /\ (class_pct Other str < 20 -> within_class_bounds str)
       /\ (forall v, 0 <= v < 255 -> pct (occurrences v str) (strlen str) <= 60)).
Proof.
  exact (is_simple_false_iff str errstr).
Qed.

Lemma is_simple_accepts_iff_witness :
  defined_run (cstr "Ab1!Ab1!") = true
  /\ is_simple (cstr "Ab1!Ab1!") [] = Ret (false, [])
  /\ 8 <= strlen (cstr "Ab1!Ab1!")
  /\ (class_pct Other (cstr "Ab1!Ab1!") < 20 -> within_class_bounds (cstr "Ab1!Ab1!")).
Proof.
  assert (Hdef : defined_run (cstr "Ab1!Ab1!") = true) by reflexivity.
  assert (Hrun : is_simple (cstr "Ab1!Ab1!") [] = Ret (false, [])) by reflexivity.
  split; [exact Hdef|]. split; [exact Hrun|].
  destruct (proj1 (is_simple_accepts_iff (cstr "Ab1!Ab1!") [] Hdef) Hrun)
    as (Hlen & Hbounds & _).
  split; assumption.
Defined.

Lemma pct_positive_count (count tot : Z) :
  0 <= count -> 0 < tot -> 1 <= pct count tot -> 1 <= count.
Proof.
  intros Hc Ht Hp. destruct (Z.eq_dec count 0) as [->|]; [|lia].
  unfold pct in Hp. rewrite Z.mul_0_l, Z.div_0_l in Hp by lia. lia.
Qed.

(** X7.  What an accepted password must hold: when [is_simple] returns
    false on a password whose "other" class is below 20 percent, the
    password has at least 8 chars and holds at least one digit, one
    lowercase letter, one uppercase letter and one punctuation char. *)
Theorem accepted_password_ingredients (str : list Z) (errstr : errcell) :
  defined_run str = true ->
  is_simple str errstr = Ret (false, errstr) ->
  class_pct Other str < 20 ->
  8 <= strlen str
  /\ 1 <= class_count Digit str
  /\ 1 <= class_count Lower str
  /\ 1 <= class_count Upper str
  /\ 1 <= class_count Punct str.
Proof.
  intros Hdef Hrun Hother.
  destruct (proj1 (is_simple_false_iff str errstr Hdef) Hrun)
    as (Hlen & Hbounds & _).
  destruct (Hbounds Hother) as (Hd & Hl & Hu & Hp & _).
  split; [exact Hlen|].
  split_and!; (apply (pct_positive_count _ (strlen str));
               [apply class_count_le | lia | unfold class_pct in *; lia]).
Qed.

Lemma accepted_password_ingredients_witness :
  defined_run (cstr "Ab1!Ab1!") = true
  /\ is_simple (cstr "Ab1!Ab1!") [] = Ret (false, [])
  /\ class_pct Other (cstr "Ab1!Ab1!") < 20
  /\ 1 <= class_count Punct (cstr "Ab1!Ab1!").
Proof.
  assert (Hdef : defined_run (cstr "Ab1!Ab1!") = true) by reflexivity.
  assert (Hrun : is_simple (cstr "Ab1!Ab1!") [] = Ret (false, [])) by reflexivity.
  assert (Hother : class_pct Other (cstr "Ab1!Ab1!") < 20) by reflexivity.
  split; [exact Hdef|]. split; [exact Hrun|]. split; [exact Hother|].
  exact (proj2 (proj2 (proj2 (proj2
           (accepted_password_ingredients (cstr "Ab1!Ab1!") [] Hdef Hrun Hother))))).
Defined.

Lemma c_str_nul_free (str : list Z) : Forall (fun c => c <> 0) str -> c_str str = str.
Proof.
  induction 1 as [|c rest Hc _ IH]; [reflexivity|].
  rewrite c_str_cons by exact Hc. now rewrite IH.
Qed.

Lemma filter_length_permutation {A : Type} (P : A -> Prop)
    `{forall x, Decision (P x)} (l1 l2 : list A) :
  Permutation l1 l2 -> length (filter P l1) = length (filter P l2).
Proof.
  induction 1 as [|x l1 l2 _ IH|x y l|l1 l2 l3 _ IH1 _ IH2].
  - reflexivity.
  - rewrite !filter_cons. destruct (decide (P x)); cbn [length]; lia.
  - rewrite !filter_cons. destruct (decide (P x)), (decide (P y)); reflexivity.
  - lia.
Qed.

Lemma is_simple_reason_permutation (s1 s2 : list Z) :
  Permutation (c_str s1) (c_str s2) -> is_simple_reason s1 = is_simple_reason s2.
Proof.
  intros Hperm.
  assert (Hlen : strlen s1 = strlen s2).
  { unfold strlen. now rewrite (Permutation_length Hperm). }
  assert (Hcls : forall cls, class_pct cls s1 = class_pct cls s2).
  { intros cls. unfold class_pct, class_count.
    now rewrite Hlen, (filter_length_permutation _ _ _ Hperm). }
  assert (Hocc : forall v, occurrences v s1 = occurrences v s2).
  { intros v. unfold occurrences.
    now rewrite (filter_length_permutation _ _ _ Hperm). }
  unfold is_simple_reason, dominated, byte_table, percentages_of.
  rewrite Hlen, !Hcls.
  now rewrite (map_ext _ (fun v => occurrences (Z.of_nat v) s2)) by (intros; apply Hocc).
Qed.

Lemma defined_run_permutation (s1 s2 : list Z) :
  Permutation (c_str s1) (c_str s2) -> defined_run s1 = defined_run s2.
Proof.
  intros Hperm. unfold defined_run, index_safe, strlen.
  rewrite (Permutation_length Hperm). f_equal.
  apply eq_true_iff_eq. rewrite !forallb_forall.
  split; intros Hall c Hin; apply Hall.
  - now apply (Permutation_in _ (Permutation_sym Hperm)).
  - now apply (Permutation_in _ Hperm).
Qed.

(** X8.  [is_simple] looks at how often each char occurs and never at
    where: on a run within defined behaviour, any rearrangement of the
    chars of a password, its reversal for one, gets the same verdict
    and the same reason. *)
Theorem is_simple_order_blind (s1 s2 : list Z) (errstr : errcell) :
  Permutation (c_str s1) (c_str s2) -> defined_run s1 = true ->
  is_simple s2 errstr = is_simple s1 errstr.
Proof.
  intros Hperm Hdef1.
  assert (Hdef2 : defined_run s2 = true)
    by now rewrite <- (defined_run_permutation s1 s2 Hperm).
  assert (Hlen : strlen s1 = strlen s2).
  { unfold strlen. now rewrite (Permutation_length Hperm). }
  destruct (Z_lt_ge_dec (strlen s1) 8) as [Hshort|Hlong].
  - apply andb_true_iff in Hdef1 as [Hsafe1 _].
    apply andb_true_iff in Hdef2 as [Hsafe2 _].
    rewrite (is_simple_short s1 errstr Hsafe1 Hshort).
    now rewrite (is_simple_short s2 errstr Hsafe2) by lia.
  - rewrite (is_simple_long s1 errstr Hdef1) by lia.
    rewrite (is_simple_long s2 errstr Hdef2) by lia.
    unfold is_simple_result.
    now rewrite (is_simple_reason_permutation s1 s2 Hperm).
Qed.

Lemma is_simple_order_blind_witness :
  Permutation (c_str (cstr "Ab1!Ab1!")) (c_str (cstr "!1bA!1bA"))
  /\ defined_run (cstr "Ab1!Ab1!") = true
  /\ is_simple (cstr "!1bA!1bA") [] = is_simple (cstr "Ab1!Ab1!") [].
Proof.
  assert (Hperm : Permutation (c_str (cstr "Ab1!Ab1!")) (c_str (cstr "!1bA!1bA"))).
  { change (c_str (cstr "!1bA!1bA")) with (rev (c_str (cstr "Ab1!Ab1!"))).
    apply Permutation_rev. }
  split; [exact Hperm|]. split; [reflexivity|].
  exact (is_simple_order_blind _ _ [] Hperm eq_refl).
Defined.

(** X9.  Where [is_simple] is defined.  On a string of chars a plain
    [char] can hold, of a length whose hundredfold fits an [int],
    [is_simple] returns a verdict exactly when every char of the string
    is a valid index of [chars], that is, non-negative; a single char
    below zero, wherever it stands and however short the string, makes
    the counting loop write outside the array. *)
Theorem is_simple_defined_iff (str : list Z) (errstr : errcell) :
  Forall (fun c => -128 <= c <= 255) (c_str str) ->
  strlen str * 100 <= INT_MAX ->
  ((exists r, is_simple str errstr = Ret r) <-> index_safe str = true)
  /\ (index_safe str = false -> is_simple str errstr = Fault OutOfBounds).
Proof.
  intros Hrange Hmax.
  pose proof (strlen_nonneg str) as Hn.
  assert (Hfault : index_safe str = false -> is_simple str errstr = Fault OutOfBounds).
  { intros Hunsafe. apply is_simple_out_of_range; auto. lia. }
  split; [|exact Hfault]. split.
  - intros [r Hr]. destruct (index_safe str) eqn:Hsafe; [reflexivity|].
    rewrite (Hfault eq_refl) in Hr. discriminate Hr.
  - intros Hsafe. destruct (Z_lt_ge_dec (strlen str) 8) as [Hshort|Hlong].
    + rewrite (is_simple_short str errstr Hsafe Hshort). eauto.
    + rewrite (is_simple_long str errstr) by
        (try lia; unfold defined_run; rewrite Hsafe; apply Z.leb_le; exact Hmax).
      eauto.
Qed.

Lemma is_simple_defined_iff_witness :
  Forall (fun c => -128 <= c <= 255) (c_str [97; -23])
  /\ strlen [97; -23] * 100 <= INT_MAX
  /\ index_safe [97; -23] = false
  /\ is_simple [97; -23] [] = Fault OutOfBounds.
Proof.
  assert (Hrange : Forall (fun c => -128 <= c <= 255) (c_str [97; -23]))
    by (repeat constructor; lia).
  assert (Hmax : strlen [97; -23] * 100 <= INT_MAX) by (vm_compute; discriminate).
  split; [exact Hrange|]. split; [exact Hmax|]. split; [reflexivity|].
  exact (proj2 (is_simple_defined_iff [97; -23] [] Hrange Hmax) eq_refl).
Defined.

(** X10.  The early exit of the single-character loop loses nothing.
    On a table of 256 non-negative entries that sum to [tot], as
    [chars] and [total] are after the counting loop, the loop that
    stops once [iter_total] reaches [tot] returns exactly whether one of
    the entries 0 to 254 exceeds 60 percent of [tot]; the entry 255 is
    never read. *)
Theorem dominance_loop_scans_255_entries (a : list Z) (tot : Z) :
  length a = 256%nat ->
  Forall (fun x => 0 <= x <= tot) a -> sumZ a = tot ->
  0 < tot -> tot * 100 <= INT_MAX ->
  dominance_loop 255 0 0 a tot
  = Ret (existsb (fun x => 60 <? pct x tot) (take 255 a)).
Proof.
  intros Hlen Hall Hsum Hpos Hmax.
  apply (dominance_loop_spec a tot Hall Hsum Hpos Hmax 255%nat 0%nat).
  rewrite Hlen. lia.
Qed.

Lemma dominance_loop_scans_255_entries_witness :
  length (<[97%nat := 6]> (<[255%nat := 2]> (replicate 256 0))) = 256%nat
  /\ dominance_loop 255 0 0 (<[97%nat := 6]> (<[255%nat := 2]> (replicate 256 0))) 8
     = Ret true.
Proof.
  split; [reflexivity|].
  rewrite (dominance_loop_scans_255_entries
             (<[97%nat := 6]> (<[255%nat := 2]> (replicate 256 0))) 8).
  - reflexivity.
  - reflexivity.
  - apply Forall_forall. intros x Hx.
    assert (Hmem : forallb (fun y => (0 <=? y) && (y <=? 8))
                     (<[97%nat := 6]> (<[255%nat := 2]> (replicate 256 0))) = true)
      by (vm_compute; reflexivity).
    rewrite forallb_forall in Hmem. apply list_elem_of_In in Hx.
    specialize (Hmem x Hx). lia.
  - reflexivity.
  - lia.
  - unfold INT_MAX. lia.
Defined.

Lemma class_checks_known (p : percentages) (reason : string) :
  class_checks p = Some reason ->
  In reason is_simple_reasons /\ reason <> too_short /\ reason <> too_many_single.
Proof.
  unfold class_checks, is_simple_reasons.
  repeat match goal with
         | |- context [if ?c then _ else _] => destruct c
         end;
    intros H; try discriminate H; injection H as <-;
    (split; [cbn [In]; tauto | split; discriminate]).
Qed.

(** X11.  The length gate is exact: on a run within defined behaviour
    [is_simple] stores "Password is too short" exactly when the string
    has fewer than 8 chars, so that 8 chars are never too short and no
    other gate reports under that reason. *)
Theorem too_short_iff_below_8 (str : list Z) (errstr : errcell) :
  defined_run str = true ->
  (is_simple str errstr = Ret (true, too_short :: errstr) <-> strlen str < 8).
Proof.
  intros Hdef. destruct (Z_lt_ge_dec (strlen str) 8) as [Hshort|Hlong].
  - apply andb_true_iff in Hdef as [Hsafe _].
    rewrite (is_simple_short str errstr Hsafe Hshort). tauto.
  - rewrite (is_simple_long str errstr Hdef) by lia.
    split; [|lia]. unfold is_simple_result, is_simple_reason.
    destruct (Z.ltb_spec (strlen str) 8); [lia|].
    destruct (if class_pct Other str <? 20 then class_checks (percentages_of str) else None)
      as [reason|] eqn:Hchecks.
    + intros Heq. injection Heq as ->. exfalso.
      destruct (class_pct Other str <? 20); [|discriminate Hchecks].
      now destruct (class_checks_known _ _ Hchecks) as (_ & Hne & _).
    + destruct (dominated str); intros Heq; discriminate Heq.
Qed.

Lemma too_short_iff_below_8_witness :
  defined_run (cstr "Ab1!Ab1") = true
  /\ strlen (cstr "Ab1!Ab1") < 8
  /\ is_simple (cstr "Ab1!Ab1") [] = Ret (true, [too_short]).
Proof.
  assert (Hdef : defined_run (cstr "Ab1!Ab1") = true) by reflexivity.
  assert (Hlen : strlen (cstr "Ab1!Ab1") < 8) by reflexivity.
  split; [exact Hdef|]. split; [exact Hlen|].
  exact (proj2 (too_short_iff_below_8 (cstr "Ab1!Ab1") [] Hdef) Hlen).
Defined.

(** X12.  [is_simple] has eleven messages and stores nothing else:
    whenever it returns true, on any string, the cell holds one of them
    on top of what it held. *)
Theorem is_simple_stores_known_reason (str : list Z) (errstr cell : errcell) :
  is_simple str errstr = Ret (true, cell) ->
  exists reason, In reason is_simple_reasons /\ cell = reason :: errstr.
Proof.
  unfold is_simple.
  destruct (count_loop str counters_init) as [st|f]; cbn [bind]; [|discriminate].
  destruct (total st <? 8).
  { intros H. injection H as <-. exists too_short. split; [left; reflexivity|reflexivity]. }
  destruct (class_percentages st) as [p|f]; cbn [bind]; [|discriminate].
  destruct (if pct_other p <? 20 then class_checks p else None) as [reason|] eqn:Hchecks.
  - intros H. injection H as <-. exists reason. split; [|reflexivity].
    destruct (pct_other p <? 20); [|discriminate Hchecks].
    now destruct (class_checks_known _ _ Hchecks).
  - destruct (dominance_loop 255 0 0 (chars st) (total st)) as [[|]|f]; cbn [bind];
      intros H; try discriminate H.
    injection H as <-. exists too_many_single. split; [|reflexivity].
    unfold is_simple_reasons. cbn [In]. tauto.
Qed.

Lemma is_simple_stores_known_reason_witness :
  is_simple (cstr "aaaaaaA1!") ["stale"%string]
  = Ret (true, ["Password contains too many lowercase letters"%string; "stale"%string])
  /\ exists reason,
       In reason is_simple_reasons
       /\ ["Password contains too many lowercase letters"%string; "stale"%string]
          = [reason; "stale"%string].
Proof.
  assert (Hrun : is_simple (cstr "aaaaaaA1!") ["stale"%string]
                 = Ret (true, ["Password contains too many lowercase letters"%string;
                               "stale"%string]))
    by (vm_compute; reflexivity).
  split; [exact Hrun|].
  exact (is_simple_stores_known_reason (cstr "aaaaaaA1!") ["stale"%string]
           ["Password contains too many lowercase letters"%string; "stale"%string] Hrun).
Defined.

(** X13.  Truncation costs less than six points in all: for a string of
    at least one char on a run within defined behaviour, the six class
    percentages the source computes add up to at least 95 and at most
    100. *)
Theorem class_percentages_sum_bounds (str : list Z) :
  defined_run str = true -> 0 < strlen str ->
  exists st p,
    count_loop str counters_init = Ret st
    /\ class_percentages st = Ret p
    /\ 95 <= pct_digits p + pct_lower p + pct_upper p
             + pct_punct p + pct_space p + pct_other p <= 100.
Proof.
  intros Hdef Hpos. apply andb_true_iff in Hdef as [Hsafe Hmax].
  apply Z.leb_le in Hmax.
  destruct (count_loop_init str Hsafe) as (st & Hst & Ht & Hc & _ & _ & _ & Hsum);
    [lia|].
  exists st, (percentages_of str). split; [exact Hst|].
  split; [apply class_percentages_ok; auto|].
  unfold class_sum in Hsum.
  pose proof (Hc Digit) as Hd. pose proof (Hc Lower) as Hl.
  pose proof (Hc Upper) as Hu. pose proof (Hc Punct) as Hp.
  pose proof (Hc Space) as Hs. pose proof (Hc Other) as Ho.
  cbn [class_total] in Hd, Hl, Hu, Hp, Hs, Ho.
  rewrite Hd, Hl, Hu, Hp, Hs, Ho in Hsum. clear Hd Hl Hu Hp Hs Ho Hc Hst Ht.
  unfold percentages_of, class_pct, pct.
  cbn [pct_digits pct_lower pct_upper pct_punct pct_space pct_other].
  set (n := strlen str) in *.
  pose proof (fun c => Z.mul_div_le (c * 100) n Hpos) as Hlo.
  pose proof (fun c => Z.mul_succ_div_gt (c * 100) n Hpos) as Hhi.
  pose proof (Hlo (class_count Digit str)). pose proof (Hhi (class_count Digit str)).
  pose proof (Hlo (class_count Lower str)). pose proof (Hhi (class_count Lower str)).
  pose proof (Hlo (class_count Upper str)). pose proof (Hhi (class_count Upper str)).
  pose proof (Hlo (class_count Punct str)). pose proof (Hhi (class_count Punct str)).
  pose proof (Hlo (class_count Space str)). pose proof (Hhi (class_count Space str)).
  pose proof (Hlo (class_count Other str)). pose proof (Hhi (class_count Other str)).
  clear Hlo Hhi. nia.
Qed.

Lemma class_percentages_sum_bounds_witness :
  defined_run (cstr "1Abcdefg!") = true
  /\ 0 < strlen (cstr "1Abcdefg!")
  /\ exists st p,
       count_loop (cstr "1Abcdefg!") counters_init = Ret st
       /\ class_percentages st = Ret p
       /\ 95 <= pct_digits p + pct_lower p + pct_upper p
                + pct_punct p + pct_space p + pct_other p <= 100.
Proof.
  split; [reflexivity|]. split; [reflexivity|].
  exact (class_percentages_sum_bounds (cstr "1Abcdefg!") eq_refl eq_refl).
Defined.

(** ** check_password *)

(** X14.  [check_password] never accepts.  Whatever the password, the
    entry, the dictionary and the two cracklib checks, a call that
    returns has returned -1: [LDAP_SUCCESS] is never returned, a
    password that passes both structural checks reading through the
    null [uid] instead. *)
Theorem check_password_never_succeeds
    (dict : string) FascistCheck FascistCheckUser
    (pPasswd : list Z) (st : state) (pEntry : option Entry) (rc : Z) (st' : state) :
  check_password dict FascistCheck FascistCheckUser pPasswd st pEntry = Ret (rc, st') ->
  rc = -1 /\ rc <> LDAP_SUCCESS.
Proof.
  destruct (check_password_hints dict FascistCheck FascistCheckUser pPasswd st pEntry)
    as [lg ->].
  unfold check_password_body.
  destruct (is_palindrome pPasswd) as [[|]|f]; cbn [bind]; try discriminate.
  - intros H. injection H as <- _. split; [reflexivity|discriminate].
  - destruct (is_simple pPasswd _) as [[[|] cell]|f]; cbn; try discriminate.
    intros H. injection H as <- _. split; [reflexivity|discriminate].
Qed.

Lemma check_password_never_succeeds_witness :
  check_password "dict" empty_dictionary empty_dictionary_user
    (cstr "short1!") fresh_state None
  = Ret (-1, mkState [too_short] [LogSimple None (Some too_short)])
  /\ -1 = -1 /\ -1 <> LDAP_SUCCESS.
Proof.
  split; [reflexivity|].
  exact (check_password_never_succeeds "dict" empty_dictionary empty_dictionary_user
           (cstr "short1!") fresh_state None (-1)
           (mkState [too_short] [LogSimple None (Some too_short)]) eq_refl).
Defined.

(** X15.  How the stages compose.  On a non-empty password
    [is_palindrome] returns; when it returns true the call rejects with
    the palindrome reason and [is_simple] is not run, even on a string
    on which [is_simple] would leave defined behaviour; when it returns
    false, on a run of [is_simple] within defined behaviour, the call
    rejects with the reason of [is_simple] if it has one and otherwise
    reads through the null [uid]. *)
Theorem check_password_stages
    (dict : string) FascistCheck FascistCheckUser
    (pPasswd : list Z) (st : state) (pEntry : option Entry) :
  1 <= strlen pPasswd <= SIZE_MAX ->
  exists b,
    is_palindrome pPasswd = Ret b
    /\ (b = true ->
        exists lg,
          check_password dict FascistCheck FascistCheckUser pPasswd st pEntry
          = Ret (-1, mkState ("Password is a palindrome"%string :: ppErrStr st) lg))
    /\ (b = false -> defined_run pPasswd = true ->
        match is_simple_reason pPasswd with
        | Some reason =>
            exists lg,
              check_password dict FascistCheck FascistCheckUser pPasswd st pEntry
              = Ret (-1, mkState (reason :: ppErrStr st) lg)
        | None =>
            check_password dict FascistCheck FascistCheckUser pPasswd st pEntry
            = Fault NullDereference
        end).
Proof.
  intros Hlen. destruct (is_palindrome_nonempty pPasswd Hlen) as (b & Hb & _).
  exists b. split; [exact Hb|]. split.
  - intros ->. now apply check_password_palindrome.
  - intros -> Hdef.
    assert (Hrun : is_simple pPasswd (ppErrStr st)
                   = Ret (is_simple_result pPasswd (ppErrStr st))).
    { destruct (Z_lt_ge_dec (strlen pPasswd) 8) as [Hshort|Hlong].
      - apply andb_true_iff in Hdef as [Hsafe _].
        rewrite (is_simple_short _ _ Hsafe Hshort).
        unfold is_simple_result, is_simple_reason.
        destruct (Z.ltb_spec (strlen pPasswd) 8); [reflexivity|lia].
      - apply is_simple_long; [exact Hdef|lia]. }
    unfold is_simple_result in Hrun.
    destruct (is_simple_reason pPasswd) as [reason|].
    + now apply check_password_simple.
    + now apply check_password_accept_faults.
Qed.

Lemma check_password_stages_witness :
  1 <= strlen [-23; -23] <= SIZE_MAX
  /\ index_safe [-23; -23] = false
  /\ exists lg,
       check_password "dict" empty_dictionary empty_dictionary_user
         [-23; -23] fresh_state None
       = Ret (-1, mkState ["Password is a palindrome"%string] lg).
Proof.
  assert (Hlen : 1 <= strlen [-23; -23] <= SIZE_MAX) by (vm_compute; split; discriminate).
  split; [exact Hlen|]. split; [reflexivity|].
  destruct (check_password_stages "dict" empty_dictionary empty_dictionary_user
              [-23; -23] fresh_state None Hlen) as (b & Hb & Hpal & _).
  apply Hpal. vm_compute in Hb. now injection Hb as <-.
Defined.

(** X16.  What a rejection writes to the log.  A call that returns has
    logged one rejection line, on top of the warning "couldn't find
    username" that is logged exactly when an entry is given and none of
    its attributes named "uid" has a value.  The rejection line never
    names the user, [uid] being null by then, and for a rejection by
    [is_simple] it carries the reason that is left in [*ppErrStr]. *)
Theorem check_password_log
    (dict : string) FascistCheck FascistCheckUser
    (pPasswd : list Z) (st : state) (pEntry : option Entry) (rc : Z) (st' : state) :
  check_password dict FascistCheck FascistCheckUser pPasswd st pEntry = Ret (rc, st') ->
  exists line warning,
    syslog st' = line :: warning ++ syslog st
    /\ (line = LogPalindrome None \/ line = LogSimple None (head (ppErrStr st')))
    /\ (warning = [] \/ warning = [LogNoUsername])
    /\ (warning = [LogNoUsername]
        <-> exists e, pEntry = Some e /\ ~ Exists (names_value "uid") e).
Proof.
  unfold check_password, identity_hints.
  assert (Hbody : forall st0 : state,
    check_password_body dict FascistCheck FascistCheckUser pPasswd None None st0
    = Ret (rc, st') ->
    exists line, syslog st' = line :: syslog st0
      /\ (line = LogPalindrome None \/ line = LogSimple None (head (ppErrStr st')))).
  { intros st0. unfold check_password_body.
    destruct (is_palindrome pPasswd) as [[|]|f]; cbn [bind]; try discriminate.
    - intros H. injection H as _ <-. cbn. eauto.
    - destruct (is_simple pPasswd _) as [[[|] cell]|f]; cbn; try discriminate.
      intros H. injection H as _ <-. cbn. eauto. }
  destruct pEntry as [e|].
  - unfold get_user_info.
    destruct (get_user_info_loop e None None) as [gecos uid] eqn:Hloop.
    destruct (get_user_info_loop_found _ _ _ _ _ Hloop) as [_ Huid].
    destruct uid as [u|]; cbn.
    + intros H. destruct (Hbody _ H) as (line & Hlog & Hline).
      exists line, []. split_and!; auto.
      split; [discriminate|]. intros (e' & He' & Hno). injection He' as <-.
      exfalso. destruct (proj1 Huid ltac:(discriminate)) as [Habs|Hex];
        [now apply Habs | exact (Hno Hex)].
    + intros H. destruct (Hbody _ H) as (line & Hlog & Hline).
      exists line, [LogNoUsername]. split_and!; auto.
      split; [|reflexivity]. intros _. exists e. split; [reflexivity|].
      intros Hex. apply (proj2 Huid); [right; exact Hex|reflexivity].
  - intros H. destruct (Hbody _ H) as (line & Hlog & Hline).
    exists line, []. split_and!; auto.
    split; [discriminate|]. intros (e & He & _). discriminate He.
Qed.

Lemma check_password_log_witness :
  check_password "dict" empty_dictionary empty_dictionary_user
    (cstr "short1!") fresh_state (Some [mkAttribute "gecos" ["Alice"%string]])
  = Ret (-1, mkState [too_short] [LogSimple None (Some too_short); LogNoUsername])
  /\ exists line warning,
       [LogSimple None (Some too_short); LogNoUsername] = line :: warning ++ []
       /\ (line = LogPalindrome None \/ line = LogSimple None (Some too_short))
       /\ (warning = [] \/ warning = [LogNoUsername])
       /\ (warning = [LogNoUsername]
           <-> exists e, Some [mkAttribute "gecos" ["Alice"%string]] = Some e
                         /\ ~ Exists (names_value "uid") e).
Proof.
  split; [reflexivity|].
  exact (check_password_log "dict" empty_dictionary empty_dictionary_user
           (cstr "short1!") fresh_state (Some [mkAttribute "gecos" ["Alice"%string]])
           (-1) (mkState [too_short] [LogSimple None (Some too_short); LogNoUsername])
           eq_refl).
Defined.

(** X17.  Nothing but the password decides.  Two calls on the same
    password end alike, with the same return code and the same reason
    or with the same fault, whatever the two entries hold, whatever
    [*ppErrStr] and the log held before, and whatever dictionary and
    cracklib checks are installed: the hints are dropped before they
    are used and cracklib is never consulted. *)
Theorem check_password_sees_only_the_password
    (dict dict' : string) FascistCheck FascistCheck' FascistCheckUser FascistCheckUser'
    (pPasswd : list Z) (st st' : state) (pEntry pEntry' : option Entry) :
  verdict_of_outcome
    (check_password dict FascistCheck FascistCheckUser pPasswd st pEntry)
  = verdict_of_outcome
      (check_password dict' FascistCheck' FascistCheckUser' pPasswd st' pEntry').
Proof.
  rewrite (check_password_ignores_cracklib dict' dict FascistCheck' FascistCheck
             FascistCheckUser' FascistCheckUser pPasswd st' pEntry').
  destruct (check_password_shape dict FascistCheck FascistCheckUser pPasswd)
    as [[f Hf]|[Hs|[reason Hs]]].
  - now rewrite !Hf.
  - destruct (Hs st pEntry) as [lg ->]. destruct (Hs st' pEntry') as [lg' ->].
    reflexivity.
  - destruct (Hs st pEntry) as [lg ->]. destruct (Hs st' pEntry') as [lg' ->].
    reflexivity.
Qed.
